(** * A chat client: input guard, conversation controller, credential check

    Shallow embedding of
      - [SecureChatInput]  (sanitizeInput, validateInput, handleSubmit,
        handleInputChange),
      - [ChatInterface]    (handleNewChat, sendMessage, handleApiKeySet,
        handleManageApiKey, the mount effect),
      - [ApiKeySetup]      (validateAndSetApiKey),
      - the earlier [ChatInterface] with its built-in credential
        (sendMessage),
    with [btoa], [atob] and [localStorage] as far as they are used, and
    the properties of the specification and of the code that concern
    them.

    JavaScript strings are sequences of UTF-16 code units; they are modelled
    as lists of code units.  Component state (React [useState] cells) is an
    explicit record threaded through a small state monad, the clock
    ([Date.now()], [new Date()]) is an oracle read through that monad, and an
    [async] function is split at its [await] into the part that runs in the
    event handler and the part that runs when the request settles. *)

From Stdlib Require Import List Bool Arith NArith ZArith Lia String Ascii.
From Stdlib Require DecimalString.
Import ListNotations.

Set Implicit Arguments.

(* ===================================================================== *)
(** ** JavaScript strings *)
(* ===================================================================== *)

Module JS.

(** A UTF-16 code unit. *)
Definition code := N.

Definition jsstr := list code.

(** Literals of the source are ASCII; [str] reads one as code units. *)
Fixpoint str (s : string) : jsstr :=
  match s with
  | EmptyString => []
  | String a t => N_of_ascii a :: str t
  end.

Definition code_eqb (a b : code) : bool := N.eqb a b.

Fixpoint jsstr_eqb (s t : jsstr) : bool :=
  match s, t with
  | [], [] => true
  | a :: s', b :: t' => code_eqb a b && jsstr_eqb s' t'
  | _, _ => false
  end.

(** [s.length] *)
Definition length (s : jsstr) : Z := Z.of_nat (List.length s).

(** WhiteSpace and LineTerminator code units, the ones [String.prototype.trim]
    removes: TAB, LF, VT, FF, CR, SP, NBSP, U+1680, U+2000..U+200A, U+2028,
    U+2029, U+202F, U+205F, U+3000, U+FEFF. *)
Definition is_space (c : code) : bool :=
  ((9 <=? c) && (c <=? 13) || (c =? 32) || (c =? 160) || (c =? 5760)
   || (8192 <=? c) && (c <=? 8202) || (c =? 8232) || (c =? 8233)
   || (c =? 8239) || (c =? 8287) || (c =? 12288) || (c =? 65279))%N.

Fixpoint trimStart (s : jsstr) : jsstr :=
  match s with
  | [] => []
  | a :: t => if is_space a then trimStart t else s
  end.

Definition trimEnd (s : jsstr) : jsstr := rev (trimStart (rev s)).

(** [s.trim()] *)
Definition trim (s : jsstr) : jsstr := trimEnd (trimStart s).

(** Whether [s] is empty or starts with a unit that is not white space. *)
Definition starts_clean (s : jsstr) : bool :=
  match s with
  | [] => true
  | a :: _ => negb (is_space a)
  end.

(** [s.startsWith(p)] *)
Fixpoint startsWith (s p : jsstr) : bool :=
  match p, s with
  | [], _ => true
  | b :: p', a :: s' => code_eqb a b && startsWith s' p'
  | _ :: _, [] => false
  end.

(** Truthiness of a string value: only the empty string is falsy. *)
Definition truthy (s : jsstr) : bool :=
  match s with [] => false | _ :: _ => true end.

(** Truthiness of a [string | null] (or [string | undefined]) value. *)
Definition truthy_opt (s : option jsstr) : bool :=
  match s with None => false | Some t => truthy t end.

(** [n.toString()] for an integer [n]. *)
Definition toString (n : Z) : jsstr :=
  str (DecimalString.NilZero.string_of_int (Z.to_int n)).

End JS.

Import JS.

(* ===================================================================== *)
(** ** Regular expressions: backtracking matcher and global replace *)
(* ===================================================================== *)

Module Regex.

(** The fragment of the pattern language the three patterns of
    [sanitizeInput] use.  All three carry the flags [g] and [i] and not [u].
    Every pattern character is ASCII; with [i] and without [u] a code unit
    is compared after upper-casing, except that a unit above 127 is never
    identified with an ASCII one, so only the ASCII letters fold. *)
Inductive regex : Type :=
| Eps                     (* empty pattern *)
| Lit (c : code)          (* pattern character *)
| NotLit (c : code)       (* [^c] *)
| WordCh                  (* \w *)
| WordB                   (* \b *)
| Cat (a b : regex)       (* ab *)
| Star (a : regex)        (* a*, greedy *)
| NegAhead (a : regex).   (* (?!a) *)

Definition Plus (a : regex) : regex := Cat a (Star a).   (* a+ *)

Fixpoint lit_codes (s : jsstr) : regex :=
  match s with
  | [] => Eps
  | [c] => Lit c
  | c :: t => Cat (Lit c) (lit_codes t)
  end.

Definition lit (s : string) : regex := lit_codes (str s).

Definition canonicalize (c : code) : code :=
  if ((97 <=? c) && (c <=? 122))%N then (c - 32)%N else c.

Definition is_word (c : code) : bool :=
  ((97 <=? c) && (c <=? 122) || (65 <=? c) && (c <=? 90)
   || (48 <=? c) && (c <=? 57) || (c =? 95))%N.

Definition is_word_opt (c : option code) : bool :=
  match c with Some a => is_word a | None => false end.

(** A position in the input: the code unit before it (none at index 0) and
    the input from it on. *)
Definition pos : Type := option code * jsstr.

Definition rest (x : pos) : jsstr := snd x.

Definition remaining (x : pos) : nat := List.length (rest x).

(** One code unit, accepted by [ok]. *)
Definition one (ok : code -> bool) (x : pos) : list pos :=
  match rest x with
  | a :: t => if ok a then [(Some a, t)] else []
  | [] => []
  end.

(** Greedy iteration: the ways to go on after one more round, each round
    having to consume input (an iteration that matches the empty string is
    abandoned), before the way that stops here. *)
Fixpoint star (step : pos -> list pos) (fuel : nat) (x : pos) : list pos :=
  match fuel with
  | O => []
  | S fuel' =>
      flat_map
        (fun y => if remaining y <? remaining x then star step fuel' y else [])
        (step x)
      ++ [x]
  end.

(** [matches r x]: the positions at which a match of [r] started at [x] can
    end, in the order in which a backtracking matcher tries them. *)
Fixpoint matches (r : regex) (x : pos) : list pos :=
  match r with
  | Eps => [x]
  | Lit c => one (fun a => code_eqb (canonicalize a) (canonicalize c)) x
  | NotLit c =>
      one (fun a => negb (code_eqb (canonicalize a) (canonicalize c))) x
  | WordCh => one is_word x
  | WordB =>
      if xorb (is_word_opt (fst x)) (is_word_opt (hd_error (rest x)))
      then [x] else []
  | Cat a b => flat_map (matches b) (matches a x)
  | Star a => star (matches a) (S (remaining x)) x
  | NegAhead a => match matches a x with [] => [x] | _ :: _ => [] end
  end.

(** The number of code units of the match found at [x], if there is one. *)
Definition match_at (r : regex) (x : pos) : option nat :=
  match matches r x with
  | y :: _ => Some (remaining x - remaining y)
  | [] => None
  end.

(** [s.replace(/r/g, '')], reading [s] from left to right.  [skip] counts the
    code units still to drop from the match in progress; the search resumes
    where that match ended.  A match of the empty string removes nothing and
    the search moves on by one code unit. *)
Fixpoint replace_from (r : regex) (skip : nat) (prev : option code)
    (s : jsstr) : jsstr :=
  match s with
  | [] => []
  | a :: t =>
      match skip with
      | S k => replace_from r k (Some a) t
      | O =>
          match match_at r (prev, s) with
          | Some (S k) => replace_from r k (Some a) t
          | _ => a :: replace_from r 0 (Some a) t
          end
      end
  end.

Definition replace (r : regex) (s : jsstr) : jsstr := replace_from r 0 None s.

(** Whether [r] has a non-empty match somewhere in [s] (from [prev] on). *)
Fixpoint found_from (r : regex) (prev : option code) (s : jsstr) : bool :=
  match s with
  | [] => false
  | a :: t =>
      match match_at r (prev, s) with
      | Some (S _) => true
      | _ => found_from r (Some a) t
      end
  end.

Definition found (r : regex) (s : jsstr) : bool := found_from r None s.

End Regex.

Import Regex.

(* ===================================================================== *)
(** ** SecureChatInput: the input guard *)
(* ===================================================================== *)

Definition MAX_MESSAGE_LENGTH : Z := 4000.
Definition RATE_LIMIT_DELAY : Z := 1000.

Definition quote : code := 34%N.

(** The first pattern, flags [gi]: [<script], a word boundary, any run of
    units other than [<], then any number of groups made of a [<] that does
    not start [</script>] followed by a run of units other than [<], and
    last [</script>]. *)
Definition script_block : regex :=
  Cat (lit "<script")
   (Cat WordB
    (Cat (Star (NotLit 60%N))
     (Cat (Star (Cat (NegAhead (lit "</script>"))
                 (Cat (Lit 60%N) (Star (NotLit 60%N)))))
      (lit "</script>")))).

(** The second pattern, flags [gi]: the literal [javascript:]. *)
Definition javascript_scheme : regex := lit "javascript:".

(** The third pattern, flags [gi]: [on], one or more word characters, [=],
    a double quote (code unit 34), any run of units other than a double
    quote, and a double quote. *)
Definition event_handler : regex :=
  Cat (lit "on")
   (Cat (Plus WordCh)
    (Cat (Lit 61%N)
     (Cat (Lit quote)
      (Cat (Star (NotLit quote)) (Lit quote))))).

Definition sanitizeInput (text : jsstr) : jsstr :=
  trim (replace event_handler
         (replace javascript_scheme
           (replace script_block text))).

(** No script block, [javascript:] scheme or event-handler attribute is left
    in [t]. *)
Definition clean (t : jsstr) : bool :=
  negb (found script_block t) && negb (found javascript_scheme t)
  && negb (found event_handler t).

(* ===================================================================== *)
(** ** State of the components and of their environment *)
(* ===================================================================== *)

(** [interface Message] of ChatInterface; a [Date] is its time value in
    milliseconds. *)
Record Message : Type := {
  id : jsstr;
  content : jsstr;
  isUser : bool;
  timestamp : Z
}.

(** What the user is shown: [alert(msg)] and [toast({title, description,
    variant})]. *)
Inductive Notice : Type :=
| Alert (msg : jsstr)
| Toast (title description variant : jsstr).

(** An entry of [conversationHistory]. *)
Record HistoryEntry : Type := {
  role : jsstr;
  entry_content : jsstr
}.

(** The calls to [fetch]: the POST of [sendMessage] with its Authorization
    header and JSON body, and the GET of [validateAndSetApiKey]. *)
Inductive Request : Type :=
| PostCompletion (authorization model : jsstr) (history : list HistoryEntry)
    (temperature_tenths max_tokens : Z)
| GetModels (authorization : jsstr).

Record World : Type := {
  (* ChatInterface *)
  messages : list Message;
  isLoading : bool;
  apiKey : option jsstr;
  showApiKeySetup : bool;
  (* SecureChatInput *)
  input : jsstr;
  lastMessageTime : Z;
  (* ApiKeySetup *)
  isValidating : bool;
  (* environment: the clock as the sequence of its successive readings and
     the number of readings taken, the notices shown, the requests issued,
     and the number of completion requests not yet settled *)
  ticks : nat -> Z;
  reads : nat;
  notices : list Notice;
  sent : list Request;
  inflight : nat
}.

Definition with_messages (f : list Message -> list Message) (w : World) :=
  {| messages := f (messages w); isLoading := isLoading w;
     apiKey := apiKey w; showApiKeySetup := showApiKeySetup w;
     input := input w; lastMessageTime := lastMessageTime w;
     isValidating := isValidating w; ticks := ticks w; reads := reads w;
     notices := notices w; sent := sent w; inflight := inflight w |}.

Definition with_isLoading (b : bool) (w : World) :=
  {| messages := messages w; isLoading := b;
     apiKey := apiKey w; showApiKeySetup := showApiKeySetup w;
     input := input w; lastMessageTime := lastMessageTime w;
     isValidating := isValidating w; ticks := ticks w; reads := reads w;
     notices := notices w; sent := sent w; inflight := inflight w |}.

Definition with_apiKey (k : option jsstr) (w : World) :=
  {| messages := messages w; isLoading := isLoading w;
     apiKey := k; showApiKeySetup := showApiKeySetup w;
     input := input w; lastMessageTime := lastMessageTime w;
     isValidating := isValidating w; ticks := ticks w; reads := reads w;
     notices := notices w; sent := sent w; inflight := inflight w |}.

Definition with_showApiKeySetup (b : bool) (w : World) :=
  {| messages := messages w; isLoading := isLoading w;
     apiKey := apiKey w; showApiKeySetup := b;
     input := input w; lastMessageTime := lastMessageTime w;
     isValidating := isValidating w; ticks := ticks w; reads := reads w;
     notices := notices w; sent := sent w; inflight := inflight w |}.

Definition with_input (s : jsstr) (w : World) :=
  {| messages := messages w; isLoading := isLoading w;
     apiKey := apiKey w; showApiKeySetup := showApiKeySetup w;
     input := s; lastMessageTime := lastMessageTime w;
     isValidating := isValidating w; ticks := ticks w; reads := reads w;
     notices := notices w; sent := sent w; inflight := inflight w |}.

Definition with_lastMessageTime (t : Z) (w : World) :=
  {| messages := messages w; isLoading := isLoading w;
     apiKey := apiKey w; showApiKeySetup := showApiKeySetup w;
     input := input w; lastMessageTime := t;
     isValidating := isValidating w; ticks := ticks w; reads := reads w;
     notices := notices w; sent := sent w; inflight := inflight w |}.

Definition with_isValidating (b : bool) (w : World) :=
  {| messages := messages w; isLoading := isLoading w;
     apiKey := apiKey w; showApiKeySetup := showApiKeySetup w;
     input := input w; lastMessageTime := lastMessageTime w;
     isValidating := b; ticks := ticks w; reads := reads w;
     notices := notices w; sent := sent w; inflight := inflight w |}.

Definition with_reads (n : nat) (w : World) :=
  {| messages := messages w; isLoading := isLoading w;
     apiKey := apiKey w; showApiKeySetup := showApiKeySetup w;
     input := input w; lastMessageTime := lastMessageTime w;
     isValidating := isValidating w; ticks := ticks w; reads := n;
     notices := notices w; sent := sent w; inflight := inflight w |}.

Definition with_notices (f : list Notice -> list Notice) (w : World) :=
  {| messages := messages w; isLoading := isLoading w;
     apiKey := apiKey w; showApiKeySetup := showApiKeySetup w;
     input := input w; lastMessageTime := lastMessageTime w;
     isValidating := isValidating w; ticks := ticks w; reads := reads w;
     notices := f (notices w); sent := sent w; inflight := inflight w |}.

Definition with_sent (f : list Request -> list Request) (w : World) :=
  {| messages := messages w; isLoading := isLoading w;
     apiKey := apiKey w; showApiKeySetup := showApiKeySetup w;
     input := input w; lastMessageTime := lastMessageTime w;
     isValidating := isValidating w; ticks := ticks w; reads := reads w;
     notices := notices w; sent := f (sent w); inflight := inflight w |}.

Definition with_inflight (n : nat) (w : World) :=
  {| messages := messages w; isLoading := isLoading w;
     apiKey := apiKey w; showApiKeySetup := showApiKeySetup w;
     input := input w; lastMessageTime := lastMessageTime w;
     isValidating := isValidating w; ticks := ticks w; reads := reads w;
     notices := notices w; sent := sent w; inflight := n |}.

(* ===================================================================== *)
(** ** Handlers as state transformers *)
(* ===================================================================== *)

Definition M (A : Type) : Type := World -> A * World.

Definition ret {A} (a : A) : M A := fun w => (a, w).

Definition bind {A B} (c : M A) (k : A -> M B) : M B :=
  fun w => let (a, w') := c w in k a w'.

Declare Scope handler_scope.
Delimit Scope handler_scope with handler.
Notation "x <- c ;; k" := (bind c (fun x => k))
  (at level 61, c at next level, right associativity) : handler_scope.
Notation "c ;; k" := (bind c (fun _ => k))
  (at level 61, right associativity) : handler_scope.
Local Open Scope handler_scope.

Definition gets {A} (f : World -> A) : M A := fun w => (f w, w).
Definition modify (f : World -> World) : M unit := fun w => (tt, f w).

(** The world a handler leaves. *)
Definition exec {A} (c : M A) (w : World) : World := snd (c w).
(** The value a handler returns. *)
Definition eval {A} (c : M A) (w : World) : A := fst (c w).

(** [Date.now()], and the time value of [new Date()]: the next reading of
    the clock. *)
Definition Date_now : M Z :=
  fun w => (ticks w (reads w), with_reads (S (reads w)) w).

Definition setMessages (f : list Message -> list Message) : M unit :=
  modify (with_messages f).
Definition setIsLoading (b : bool) : M unit := modify (with_isLoading b).
Definition setApiKey (k : jsstr) : M unit := modify (with_apiKey (Some k)).
Definition setShowApiKeySetup (b : bool) : M unit :=
  modify (with_showApiKeySetup b).
Definition setInput (s : jsstr) : M unit := modify (with_input s).
Definition setLastMessageTime (t : Z) : M unit :=
  modify (with_lastMessageTime t).
Definition setIsValidating (b : bool) : M unit := modify (with_isValidating b).

Definition alert (msg : jsstr) : M unit :=
  modify (with_notices (fun l => l ++ [Alert msg])).
Definition toast (title description variant : jsstr) : M unit :=
  modify (with_notices (fun l => l ++ [Toast title description variant])).

(** Calling [fetch]: the request goes out. *)
Definition fetch (r : Request) : M unit :=
  modify (with_sent (fun l => l ++ [r])).

(** *** Exceptions *)

(** A thrown value: an [Error] object with its [message], or anything that
    is not an instance of [Error]. *)
Inductive Thrown : Type :=
| ErrorObject (message : jsstr)
| NotAnError.

(** A block that may throw. *)
Definition MX (A : Type) : Type := M (Thrown + A).

Definition retx {A} (a : A) : MX A := ret (inr a).
Definition throw {A} (e : Thrown) : MX A := ret (inl e).
Definition lift {A} (c : M A) : MX A := a <- c ;; ret (inr a).

Definition bindx {A B} (c : MX A) (k : A -> MX B) : MX B :=
  r <- c ;;
  match r with
  | inl e => ret (inl e)
  | inr a => k a
  end.

Notation "x <-! c ;; k" := (bindx c (fun x => k))
  (at level 61, c at next level, right associativity) : handler_scope.

(** [try { body } catch (error) { handler error } finally { cleanup }], for
    a handler that does not throw. *)
Definition try_catch_finally (body : MX unit) (handler : Thrown -> M unit)
    (cleanup : M unit) : M unit :=
  r <- body ;;
  match r with
  | inl error => handler error
  | inr _ => ret tt
  end ;;
  cleanup.

(** *** What the completion endpoint answers *)

(** [choices[0].message] and its [content]; [None] stands for a property
    that is missing or null. *)
Record ChoiceMessage : Type := { message_content : option jsstr }.
Record Choice : Type := { choice_message : option ChoiceMessage }.

(** [data.choices]: missing (indexing it then throws a TypeError, with the
    message the engine gives it), or an array of choices. *)
Inductive Choices : Type :=
| NoChoices (type_error_message : jsstr)
| ChoiceList (l : list (option Choice)).

(** How [response.json()] settles. *)
Inductive JsonResult : Type :=
| JsonThrows (e : Thrown)
| JsonData (choices : Choices).

Record Response : Type := {
  status : Z;
  json : JsonResult
}.

(** [response.ok] *)
Definition ok (r : Response) : bool :=
  (200 <=? status r)%Z && (status r <=? 299)%Z.

(** How the promise of [fetch] settles: rejected (a network error), or
    fulfilled with a response. *)
Inductive FetchResult : Type :=
| Rejected (e : Thrown)
| Fulfilled (r : Response).

Definition await_fetch (r : FetchResult) : MX Response :=
  match r with
  | Rejected e => throw e
  | Fulfilled response => retx response
  end.

Definition await_json (r : Response) : MX Choices :=
  match json r with
  | JsonThrows e => throw e
  | JsonData c => retx c
  end.

(** [l[0]] for an array [l], undefined when it is empty. *)
Definition index0 (l : list (option Choice)) : option Choice :=
  match l with
  | x :: _ => x
  | [] => None
  end.

(** [data.choices[0]] *)
Definition first_choice (c : Choices) : MX (option Choice) :=
  match c with
  | NoChoices m => throw (ErrorObject m)
  | ChoiceList l => retx (index0 l)
  end.

(** [c?.message?.content] *)
Definition choice_content (c : option Choice) : option jsstr :=
  match c with
  | Some c' =>
      match choice_message c' with
      | Some m => message_content m
      | None => None
      end
  | None => None
  end.

(** [v || d] for a string or missing [v]. *)
Definition or_else (v : option jsstr) (d : jsstr) : jsstr :=
  match v with
  | Some s => if truthy s then s else d
  | None => d
  end.

(* ===================================================================== *)
(** ** SecureChatInput: validateInput, handleSubmit, handleInputChange *)
(* ===================================================================== *)

Record Validation : Type := {
  isValid : bool;
  error : option jsstr
}.

Definition empty_error : jsstr := str "Message cannot be empty".
Definition too_long_error : jsstr :=
  str "Message too long (max " ++ toString MAX_MESSAGE_LENGTH
  ++ str " characters)".
Definition rate_limit_error : jsstr :=
  str "Please wait before sending another message".

Definition validateInput (text : jsstr) : M Validation :=
  if negb (truthy (trim text)) then
    ret {| isValid := false; error := Some empty_error |}
  else if (JS.length text >? MAX_MESSAGE_LENGTH)%Z then
    ret {| isValid := false; error := Some too_long_error |}
  else
    now <- Date_now ;;
    last <- gets lastMessageTime ;;
    if (now - last <? RATE_LIMIT_DELAY)%Z then
      ret {| isValid := false; error := Some rate_limit_error |}
    else
      ret {| isValid := true; error := None |}.

Definition handleInputChange (value : jsstr) : M unit :=
  if (JS.length value <=? MAX_MESSAGE_LENGTH)%Z then setInput value
  else ret tt.

(* ===================================================================== *)
(** ** ChatInterface *)
(* ===================================================================== *)

Definition MODEL : jsstr := str "deepseek/deepseek-chat-v3.1:free".

Definition greeting : jsstr :=
  str "Hello! I'm DeepSeek AI. How can I assist you today?".

Definition placeholder : jsstr :=
  str "I'm sorry, I couldn't process that request.".

Definition seed (now : Z) : Message :=
  {| id := str "1"; content := greeting; isUser := false; timestamp := now |}.

Definition handleNewChat : M unit :=
  now <- Date_now ;;
  setMessages (fun _ => [seed now]).

Definition authentication_failure : jsstr :=
  str "Authentication failed. Please check your API key.".
Definition rate_limited : jsstr :=
  str "Rate limit exceeded. Please try again later.".
Definition unavailable : jsstr :=
  str "Service temporarily unavailable. Please try again.".
Definition send_failed : jsstr :=
  str "Failed to send message. Please try again.".

(** [sendMessage], from its call to the [await] of [fetch]: either it
    returns at the credential check, or it leaves one request in flight.
    [text] is its parameter [content]. *)
Definition sendMessage (text : jsstr) : M unit :=
  key <- gets apiKey ;;
  if negb (truthy_opt key) then
    toast (str "API Key Required")
          (str "Please set your API key to send messages.")
          (str "destructive")
  else
    rendered <- gets messages ;;
    now_id <- Date_now ;;
    now_ts <- Date_now ;;
    let userMessage :=
      {| id := toString now_id; content := text; isUser := true;
         timestamp := now_ts |} in
    setMessages (fun prev => prev ++ [userMessage]) ;;
    setIsLoading true ;;
    let conversationHistory :=
      map (fun msg =>
             {| role := if isUser msg then str "user" else str "assistant";
                entry_content := content msg |})
          (rendered ++ [userMessage]) in
    fetch (PostCompletion
             (str "Bearer " ++ match key with Some k => k | None => [] end)
             MODEL conversationHistory 7 1000) ;;
    modify (fun w => with_inflight (S (inflight w)) w).

(** [sendMessage], from the moment the promise of [fetch] settles with [r]
    to its end.  Nothing of the component changes between the two awaits
    ([fetch], then [response.json()]), so they are taken in one step. *)
Definition sendMessage_settled (r : FetchResult) : M unit :=
  try_catch_finally
    (response <-! await_fetch r ;;
     if negb (ok response) then
       if (status response =? 401)%Z then
         throw (ErrorObject authentication_failure)
       else if (status response =? 429)%Z then
         throw (ErrorObject rate_limited)
       else
         throw (ErrorObject unavailable)
     else
       data <-! await_json response ;;
       first <-! first_choice data ;;
       let aiResponse := or_else (choice_content first) placeholder in
       now_id <-! lift Date_now ;;
       now_ts <-! lift Date_now ;;
       let aiMessage :=
         {| id := toString (now_id + 1); content := aiResponse;
            isUser := false; timestamp := now_ts |} in
       lift (setMessages (fun prev => prev ++ [aiMessage])))
    (fun error =>
       let errorMessage :=
         match error with
         | ErrorObject m => m
         | NotAnError => send_failed
         end in
       toast (str "Error") errorMessage (str "destructive"))
    (setIsLoading false).

Definition handleApiKeySet (newApiKey : jsstr) : M unit :=
  setApiKey newApiKey ;;
  setShowApiKeySetup false.

Definition handleManageApiKey : M unit := setShowApiKeySetup true.

(** The effect run after the first render, given what [getStoredApiKey()]
    returns. *)
Definition mount_effect (storedKey : option jsstr) : M unit :=
  match storedKey with
  | Some k => if truthy k then setApiKey k else setShowApiKeySetup true
  | None => setShowApiKeySetup true
  end.

(** [handleSubmit] of SecureChatInput, with [sendMessage] as its
    [onSendMessage]. *)
Definition handleSubmit : M unit :=
  raw <- gets input ;;
  let sanitizedInput := sanitizeInput raw in
  validation <- validateInput sanitizedInput ;;
  if negb (isValid validation) then
    match error validation with
    | Some e => if truthy e then alert e else ret tt
    | None => ret tt
    end
  else
    loading <- gets isLoading ;;
    if negb loading then
      sendMessage sanitizedInput ;;
      setInput [] ;;
      now <- Date_now ;;
      setLastMessageTime now
    else ret tt.

(* ===================================================================== *)
(** ** ApiKeySetup *)
(* ===================================================================== *)

Definition KEY_PREFIX : jsstr := str "sk-or-v1-".

Definition invalid_format : jsstr :=
  str "Invalid API key format. OpenRouter API keys should start with 'sk-or-v1-'".

(** [validateAndSetApiKey], up to the [await] of its [fetch]; [apiKey] is
    the text of the component's input field. *)
Definition validateAndSetApiKey (apiKey : jsstr) : M unit :=
  if negb (truthy (trim apiKey)) then ret tt
  else if negb (startsWith apiKey KEY_PREFIX) then alert invalid_format
  else
    setIsValidating true ;;
    fetch (GetModels (str "Bearer " ++ apiKey)).

(** The local format check the spec calls [validateFormat]: whether
    [validateAndSetApiKey] gets past its two early returns. *)
Definition validateFormat (raw : jsstr) : bool :=
  truthy (trim raw) && startsWith raw KEY_PREFIX.

(* ===================================================================== *)
(** ** The application as a transition system *)
(* ===================================================================== *)

Inductive event : Type :=
| Mount (storedKey : option jsstr)   (* the effect after the first render *)
| InputChange (value : jsstr)        (* typing in the textarea *)
| Submit                             (* submitting the form, or Enter *)
| NewChat                            (* confirming the New Chat dialog *)
| ManageApiKey                       (* the API Key button *)
| ApiKeySet (newApiKey : jsstr)      (* ApiKeySetup calls onApiKeySet *)
| Settle (r : FetchResult).          (* a completion request settles *)

(** A request that settles resumes the [sendMessage] that awaits it. *)
Definition settle (r : FetchResult) : M unit :=
  n <- gets inflight ;;
  match n with
  | O => ret tt
  | S n' =>
      modify (with_inflight n') ;;
      sendMessage_settled r
  end.

Definition handle (e : event) : M unit :=
  match e with
  | Mount storedKey => mount_effect storedKey
  | InputChange value => handleInputChange value
  | Submit => handleSubmit
  | NewChat => handleNewChat
  | ManageApiKey => handleManageApiKey
  | ApiKeySet newApiKey => handleApiKeySet newApiKey
  | Settle r => settle r
  end.

(** While the setup screen shows, SecureChatInput is not rendered: its
    state cells are lost and start afresh when it is rendered again. *)
Definition render (w : World) : World :=
  if showApiKeySetup w then with_lastMessageTime 0 (with_input [] w) else w.

Definition step (w : World) (e : event) : World := render (exec (handle e) w).

Definition run (es : list event) (w : World) : World := fold_left step es w.

(** The first render, with a clock: the initial values of the state cells. *)
Definition boot (clock : nat -> Z) : World :=
  {| messages := [seed (clock O)]; isLoading := false; apiKey := None;
     showApiKeySetup := false; input := []; lastMessageTime := 0;
     isValidating := false; ticks := clock; reads := 1; notices := [];
     sent := []; inflight := O |}.

(** A call of [handleSubmit] followed to its completion: when it left a
    request in flight, the request settles with [r]. *)
Definition submit (r : FetchResult) : M unit :=
  before <- gets inflight ;;
  handleSubmit ;;
  after <- gets inflight ;;
  if before <? after then settle r else ret tt.

(* ===================================================================== *)
(** ** Vocabulary of the properties *)
(* ===================================================================== *)

(** What the next [Date.now()] returns. *)
Definition next_tick (w : World) : Z := ticks w (reads w).

(** A completion request that fails: a network error, or a response whose
    status is not 2xx. *)
Definition failed (r : FetchResult) : bool :=
  match r with
  | Rejected _ => true
  | Fulfilled response => negb (ok response)
  end.

(** The three user-facing categories of a failed completion request, by
    HTTP status, in the words of the specification. *)
Inductive Category : Type := AuthenticationFailure | RateLimiting | Unavailable.

Definition category_of_status (status : Z) : Category :=
  if (status =? 401)%Z then AuthenticationFailure
  else if (status =? 429)%Z then RateLimiting
  else Unavailable.

Definition category_text (c : Category) : jsstr :=
  match c with
  | AuthenticationFailure => authentication_failure
  | RateLimiting => rate_limited
  | Unavailable => unavailable
  end.

(** The reasons for which the input guard rejects, and the first one that
    applies when the three checks are made in the order of the
    specification: empty, too long, too soon. *)
Inductive Rejection : Type := Empty | TooLong | TooSoon.

Definition first_rejection (empty too_long too_soon : bool)
    : option Rejection :=
  if empty then Some Empty
  else if too_long then Some TooLong
  else if too_soon then Some TooSoon
  else None.

Definition rejection_text (r : Rejection) : jsstr :=
  match r with
  | Empty => empty_error
  | TooLong => too_long_error
  | TooSoon => rate_limit_error
  end.

Definition report (r : option Rejection) : Validation :=
  match r with
  | Some reason => {| isValid := false; error := Some (rejection_text reason) |}
  | None => {| isValid := true; error := None |}
  end.

(** [handleSubmit] accepts: the sanitized input passes [validateInput] and
    no request is pending, so that [onSendMessage] is called and the time
    of the submission recorded. *)
Definition accepts (w : World) : bool :=
  isValid (eval (validateInput (sanitizeInput (input w))) w)
  && negb (isLoading w).


(** A clock that advances five seconds between readings, and a credential
    of the required format, for the concrete runs below. *)
Definition slow_clock (n : nat) : Z := (1700000000000 + 5000 * Z.of_nat n)%Z.
Definition sample_key : jsstr := str "sk-or-v1-abc".

(** A clock that advances ten milliseconds between readings. *)
Definition quick_clock (n : nat) : Z := (1700000000000 + 10 * Z.of_nat n)%Z.

(** A well-formed reply of the completion endpoint, and one whose first
    choice has the empty string as its content. *)
Definition reply_with (text : jsstr) : FetchResult :=
  Fulfilled
    {| status := 200;
       json := JsonData (ChoiceList
                 [Some {| choice_message :=
                            Some {| message_content := Some text |} |}]) |}.
Definition sample_reply : FetchResult := reply_with (str "hello").
Definition empty_reply : FetchResult := reply_with [].

(** The application after the user has typed [hi] and submitted it: one
    request is in flight. *)
Definition awaiting_reply : World :=
  run [Mount (Some sample_key); InputChange (str "hi"); Submit]
      (boot slow_clock).

(* ===================================================================== *)
(** ** SecureChatInput: the keyboard and the submit button *)
(* ===================================================================== *)

(** [handleKeyDown]: Enter without Shift submits. *)
Definition handleKeyDown (key : jsstr) (shiftKey : bool) : M unit :=
  if jsstr_eqb key (str "Enter") && negb shiftKey then handleSubmit
  else ret tt.

(** The [disabled] attribute of the submit button. *)
Definition submit_disabled (w : World) : bool :=
  negb (truthy (trim (input w))) || isLoading w
  || (JS.length (input w) >? MAX_MESSAGE_LENGTH)%Z.

(* ===================================================================== *)
(** ** Base64: btoa and atob *)
(* ===================================================================== *)

Module Base64.

(** The character of the Base64 alphabet for a six-bit value. *)
Definition b64_char (n : N) : code :=
  (if n <? 26 then 65 + n
   else if n <? 52 then 97 + (n - 26)
   else if n <? 62 then 48 + (n - 52)
   else if n =? 62 then 43
   else 47)%N.

(** The six-bit value of a character of the alphabet. *)
Definition b64_value (c : code) : option N :=
  (if (65 <=? c) && (c <=? 90) then Some (c - 65)
   else if (97 <=? c) && (c <=? 122) then Some (c - 97 + 26)
   else if (48 <=? c) && (c <=? 57) then Some (c - 48 + 52)
   else if c =? 43 then Some 62
   else if c =? 47 then Some 63
   else None)%N.

Definition equals_sign : code := 61%N.

(** The six-bit values, and the strings that are sequences of bytes. *)
Definition six_bit : list N := map N.of_nat (seq 0 64).
Definition bytes (s : list N) : Prop := Forall (fun c => (c <= 255)%N) s.

(** The six-bit groups of a sequence of bytes, three bytes giving four
    groups; a last group is filled with zero bits. *)
Fixpoint sextets (s : list N) : list N :=
  match s with
  | a :: b :: c :: t =>
      (a / 4 :: (a mod 4) * 16 + b / 16 :: (b mod 16) * 4 + c / 64
         :: c mod 64 :: sextets t)%N
  | [a; b] => [a / 4; (a mod 4) * 16 + b / 16; (b mod 16) * 4]%N
  | [a] => [a / 4; (a mod 4) * 16]%N
  | [] => []
  end.

Fixpoint padding (s : list N) : jsstr :=
  match s with
  | _ :: _ :: _ :: t => padding t
  | [_; _] => [equals_sign]
  | [_] => [equals_sign; equals_sign]
  | [] => []
  end.

Definition encode (s : list N) : jsstr :=
  map b64_char (sextets s) ++ padding s.

(** [btoa(s)]: [None] when it throws, which it does when a code unit of
    [s] is above 255. *)
Definition btoa (s : jsstr) : option jsstr :=
  if forallb (fun c => c <=? 255)%N s then Some (encode s) else None.

(** ASCII whitespace: TAB, LF, FF, CR, SPACE. *)
Definition is_ascii_whitespace (c : code) : bool :=
  ((c =? 9) || (c =? 10) || (c =? 12) || (c =? 13) || (c =? 32))%N.

(** Removing the one or two equals signs the data ends with. *)
Fixpoint strip_padding (d : jsstr) : jsstr :=
  match d with
  | [] => []
  | a :: t =>
      if code_eqb a equals_sign
         && match t with
            | [] => true
            | [b] => code_eqb b equals_sign
            | _ :: _ :: _ => false
            end
      then []
      else a :: strip_padding t
  end.

Fixpoint values (d : jsstr) : option (list N) :=
  match d with
  | [] => Some []
  | c :: t =>
      match b64_value c, values t with
      | Some v, Some l => Some (v :: l)
      | _, _ => None
      end
  end.

(** The bytes of a sequence of six-bit groups, four groups giving three
    bytes; the bits left over at the end are dropped. *)
Fixpoint decode (l : list N) : jsstr :=
  match l with
  | a :: b :: c :: d :: t =>
      (a * 4 + b / 16 :: (b mod 16) * 16 + c / 4 :: (c mod 4) * 64 + d
         :: decode t)%N
  | [a; b; c] => [a * 4 + b / 16; (b mod 16) * 16 + c / 4]%N
  | [a; b] => [a * 4 + b / 16]%N
  | _ => []
  end.

(** [atob(data)], the forgiving Base64 decoding: [None] when it throws. *)
Definition atob (data : jsstr) : option jsstr :=
  let d := filter (fun c => negb (is_ascii_whitespace c)) data in
  let d := if (List.length d mod 4 =? 0)%nat then strip_padding d else d in
  if (List.length d mod 4 =? 1)%nat then None
  else
    match values d with
    | Some l => Some (decode l)
    | None => None
    end.

End Base64.

(* ===================================================================== *)
(** ** The page: the application with the browser's storage and console *)
(* ===================================================================== *)

(** [console.error(label, value)] *)
Inductive ConsoleEntry : Type :=
| ConsoleError (label : jsstr) (value : Thrown).

(** [localStorage] holds its items as pairs of key and value, one pair for
    a key. *)
Definition Storage : Type := list (jsstr * jsstr).

Fixpoint storage_get (k : jsstr) (l : Storage) : option jsstr :=
  match l with
  | [] => None
  | (k', v) :: t => if jsstr_eqb k' k then Some v else storage_get k t
  end.

Fixpoint storage_set (k v : jsstr) (l : Storage) : Storage :=
  match l with
  | [] => [(k, v)]
  | (k', v') :: t =>
      if jsstr_eqb k' k then (k', v) :: t else (k', v') :: storage_set k v t
  end.

Definition storage_remove (k : jsstr) (l : Storage) : Storage :=
  filter (fun kv => negb (jsstr_eqb (fst kv) k)) l.

Record Page : Type := {
  world : World;
  localStorage : Storage;
  console : list ConsoleEntry
}.

Definition with_world (w : World) (p : Page) :=
  {| world := w; localStorage := localStorage p; console := console p |}.
Definition with_localStorage (l : Storage) (p : Page) :=
  {| world := world p; localStorage := l; console := console p |}.
Definition with_console (c : list ConsoleEntry) (p : Page) :=
  {| world := world p; localStorage := localStorage p; console := c |}.

Definition PM (A : Type) : Type := Page -> A * Page.

Definition pret {A} (a : A) : PM A := fun p => (a, p).
Definition pbind {A B} (c : PM A) (k : A -> PM B) : PM B :=
  fun p => let (a, p') := c p in k a p'.

Declare Scope page_scope.
Delimit Scope page_scope with page.
Notation "x <- c ;; k" := (pbind c (fun x => k))
  (at level 61, c at next level, right associativity) : page_scope.
Notation "c ;; k" := (pbind c (fun _ => k))
  (at level 61, right associativity) : page_scope.

(** A handler of the components, run on the page. *)
Definition on_world {A} (c : M A) : PM A :=
  fun p => let (a, w') := c (world p) in (a, with_world w' p).

Definition pexec {A} (c : PM A) (p : Page) : Page := snd (c p).
Definition peval {A} (c : PM A) (p : Page) : A := fst (c p).

Definition getItem (k : jsstr) : PM (option jsstr) :=
  fun p => (storage_get k (localStorage p), p).
Definition setItem (k v : jsstr) : PM unit :=
  fun p => (tt, with_localStorage (storage_set k v (localStorage p)) p).
Definition removeItem (k : jsstr) : PM unit :=
  fun p => (tt, with_localStorage (storage_remove k (localStorage p)) p).
Definition console_error (label : jsstr) (value : Thrown) : PM unit :=
  fun p => (tt, with_console (console p ++ [ConsoleError label value]) p).

(** A block of page code that may throw, and [try], [catch], [finally]. *)
Definition PMX (A : Type) : Type := PM (Thrown + A).

Definition pbindx {A B} (c : PMX A) (k : A -> PMX B) : PMX B :=
  pbind c (fun r => match r with
                    | inl e => pret (inl e)
                    | inr a => k a
                    end).

Notation "x <-! c ;; k" := (pbindx c (fun x => k))
  (at level 61, c at next level, right associativity) : page_scope.

Definition plift {A} (c : PM A) : PMX A := pbind c (fun a => pret (inr a)).

Definition ptry_catch_finally (body : PMX unit) (handler : Thrown -> PM unit)
    (cleanup : PM unit) : PM unit :=
  pbind body (fun r =>
  pbind match r with
        | inl error => handler error
        | inr _ => pret tt
        end (fun _ =>
  cleanup)).

Local Open Scope page_scope.

Definition STORAGE_KEY : jsstr := str "openrouter_api_key".

(** [getStoredApiKey] of ChatInterface.  Access to [localStorage] itself is
    taken not to throw; a throw of [atob] is caught and gives null. *)
Definition getStoredApiKey : PM (option jsstr) :=
  encrypted <- getItem STORAGE_KEY ;;
  pret (if truthy_opt encrypted
        then match encrypted with
             | Some e => Base64.atob e       (* a throw is caught: null *)
             | None => None
             end
        else None).

(** [clearStoredApiKey] of ChatInterface. *)
Definition clearStoredApiKey : PM unit := removeItem STORAGE_KEY.

(** The effect ChatInterface runs after its first render. *)
Definition mount : PM unit :=
  storedKey <- getStoredApiKey ;;
  on_world (mount_effect storedKey).

(** Opening the page with what the browser has stored: the first render,
    the mount effect and the render that follows it. *)
Definition open_page (clock : nat -> Z) (stored : Storage) : Page :=
  let p := pexec mount {| world := boot clock; localStorage := stored;
                          console := [] |} in
  with_world (render (world p)) p.

Definition invalid_key : jsstr :=
  str "Invalid API key. Please check your key and try again.".
Definition validation_failed : jsstr :=
  str "Failed to validate API key. Please check your connection and try again.".

(** [btoa], throwing. *)
Definition btoa_or_throw (s : jsstr) : PMX jsstr :=
  match Base64.btoa s with
  | Some e => pret (inr e)
  | None => pret (inl (ErrorObject (str "InvalidCharacterError")))
  end.

Definition await_models (r : FetchResult) : PMX Response :=
  match r with
  | Rejected e => pret (inl e)
  | Fulfilled response => pret (inr response)
  end.

(** [validateAndSetApiKey] of ApiKeySetup, from the moment its request
    settles with [r]; [onApiKeySet] is [handleApiKeySet] of ChatInterface. *)
Definition validateAndSetApiKey_settled (apiKey : jsstr) (r : FetchResult)
    : PM unit :=
  ptry_catch_finally
    (response <-! await_models r ;;
     if ok response then
       encryptedKey <-! btoa_or_throw apiKey ;;
       _ <-! plift (setItem STORAGE_KEY encryptedKey) ;;
       plift (on_world (handleApiKeySet apiKey))
     else
       plift (on_world (alert invalid_key)))
    (fun _ => on_world (alert validation_failed))
    (on_world (setIsValidating false)).

(** The whole of [validateAndSetApiKey]: the part before the request, and,
    when a request went out, the part after it has settled with [r]. *)
Definition validate_key (apiKey : jsstr) (r : FetchResult) : PM unit :=
  before <- on_world (gets sent) ;;
  on_world (validateAndSetApiKey apiKey) ;;
  after <- on_world (gets sent) ;;
  if (List.length before <? List.length after)%nat
  then validateAndSetApiKey_settled apiKey r
  else pret tt.

Local Close Scope page_scope.

(* ===================================================================== *)
(** ** The earlier ChatInterface, with its built-in credential *)
(* ===================================================================== *)

Module Legacy.

Section WithKey.

(** The constant [OPENROUTER_API_KEY] of the file. *)
Variable OPENROUTER_API_KEY : jsstr.

(** [sendMessage], up to the [await] of [fetch]. *)
Definition sendMessage (text : jsstr) : M unit :=
  (rendered <- gets messages ;;
   now_id <- Date_now ;;
   now_ts <- Date_now ;;
   let userMessage :=
     {| id := toString now_id; content := text; isUser := true;
        timestamp := now_ts |} in
   setMessages (fun prev => prev ++ [userMessage]) ;;
   setIsLoading true ;;
   let conversationHistory :=
     map (fun msg =>
            {| role := if isUser msg then str "user" else str "assistant";
               entry_content := content msg |})
         (rendered ++ [userMessage]) in
   fetch (PostCompletion (str "Bearer " ++ OPENROUTER_API_KEY)
            MODEL conversationHistory 7 1000) ;;
   modify (fun w => with_inflight (S (inflight w)) w))%handler.

End WithKey.

(** The [try] block of [sendMessage] after the [await] of [fetch]. *)
Definition settled_body (r : FetchResult) : MX unit :=
  (response <-! await_fetch r ;;
   if negb (ok response) then
     throw (ErrorObject (str "API request failed: "
                         ++ toString (status response)))
   else
     data <-! await_json response ;;
     first <-! first_choice data ;;
     let aiResponse := or_else (choice_content first) placeholder in
     now_id <-! lift Date_now ;;
     now_ts <-! lift Date_now ;;
     let aiMessage :=
       {| id := toString (now_id + 1); content := aiResponse;
          isUser := false; timestamp := now_ts |} in
     lift (setMessages (fun prev => prev ++ [aiMessage])))%handler.

(** [sendMessage], from the moment the promise of [fetch] settles. *)
Definition sendMessage_settled (r : FetchResult) : PM unit :=
  ptry_catch_finally
    (on_world (settled_body r))
    (fun error =>
       pbind (console_error (str "Error sending message:") error) (fun _ =>
       on_world (toast (str "Error") send_failed (str "destructive"))))
    (on_world (setIsLoading false)).

End Legacy.

(* ===================================================================== *)
(** ** Further vocabulary *)
(* ===================================================================== *)

(** Whether [validateAndSetApiKey] stores the key when its request settles
    with [r]: the response is a 2xx one and [btoa] does not throw. *)
Definition stores (key : jsstr) (r : FetchResult) : bool :=
  match r with
  | Fulfilled response =>
      ok response && forallb (fun c => c <=? 255)%N key
  | Rejected _ => false
  end.

(** The notice of [validateAndSetApiKey] when it does not store the key. *)
Definition key_failure_text (r : FetchResult) : jsstr :=
  match r with
  | Fulfilled response =>
      if ok response then validation_failed else invalid_key
  | Rejected _ => validation_failed
  end.

(** A settled request that gives a reply to append: a 2xx response whose
    body could be read and has a list of choices. *)
Definition answers (r : FetchResult) : bool :=
  match r with
  | Fulfilled response =>
      ok response
      && match json response with
         | JsonData (ChoiceList _) => true
         | _ => false
         end
  | Rejected _ => false
  end.

(** The events that can come while a request is outstanding without
    ending the wait or resetting the conversation: anything but a reset
    and the settling of a request. *)
Definition while_outstanding (e : event) : bool :=
  match e with
  | NewChat | Settle _ => false
  | Mount _ | InputChange _ | Submit | ManageApiKey | ApiKeySet _ => true
  end.

(** With a clock that advances ten milliseconds a reading: the application
    once the user has typed [hi]; and, after that text was submitted and
    answered, once the user has been to the setup screen and back and has
    typed [again]. *)
Definition typed_hi : World :=
  run [Mount (Some sample_key); InputChange (str "hi")] (boot quick_clock).


(** A notice that is a toast. *)
Definition is_toast (n : Notice) : bool :=
  match n with
  | Toast _ _ _ => true
  | Alert _ => false
  end.

(** [s] is [t] with some of its elements removed. *)
Inductive subseq {A : Type} : list A -> list A -> Prop :=
| subseq_nil : subseq [] []
| subseq_keep a s t : subseq s t -> subseq (a :: s) (a :: t)
| subseq_drop a s t : subseq s t -> subseq s (a :: t).

(** The entry of the request history for a message. *)
Definition history_entry (msg : Message) : HistoryEntry :=
  {| role := if isUser msg then str "user" else str "assistant";
     entry_content := content msg |}.

(** A text the input guard lets through: not empty, free of surrounding
    white space and within the maximum length. *)
Definition guarded_text (t : jsstr) : Prop :=
  t <> [] /\ trim t = t /\ (JS.length t <= MAX_MESSAGE_LENGTH)%Z.

(** A completion request made with a credential that is not empty, for a
    history that ends with a message of the user. *)
Definition credentialed (r : Request) : Prop :=
  match r with
  | PostCompletion authorization model history _ _ =>
      (exists k, k <> [] /\ authorization = str "Bearer " ++ k)
      /\ model = MODEL
      /\ (exists h c, history = h ++ [{| role := str "user";
                                         entry_content := c |}])
  | GetModels _ => False
  end.

(** Running a handler symbolically: the combinators and the state cells are
    unfolded, the texts and the input guard are not. *)
Ltac run_handler :=
  cbv beta iota zeta delta
    [exec eval bind ret gets modify lift bindx retx throw try_catch_finally
     Date_now setMessages setIsLoading setApiKey setShowApiKeySetup setInput
     setLastMessageTime setIsValidating alert toast fetch
     await_fetch await_json first_choice
     with_messages with_isLoading with_apiKey with_showApiKeySetup with_input
     with_lastMessageTime with_isValidating with_reads with_notices with_sent
     with_inflight
     messages isLoading apiKey showApiKeySetup input lastMessageTime
     isValidating ticks reads notices sent inflight next_tick fst snd].

(** Running page code symbolically. *)
Ltac run_page :=
  cbv beta iota zeta delta
    [pexec peval pbind pret on_world pbindx plift ptry_catch_finally
     getItem setItem removeItem console_error await_models
     with_world with_localStorage with_console world localStorage console
     fst snd].

(* ===================================================================== *)
(** ** Strings and patterns: lemmas *)
(* ===================================================================== *)

Lemma trimStart_starts_clean (s : jsstr) : starts_clean (trimStart s) = true.
Proof.
  induction s as [|a t IH]; simpl; [reflexivity|].
  destruct (is_space a) eqn:E; [exact IH|].
  simpl. now rewrite E.
Qed.

Lemma trimStart_fixed (s : jsstr) : starts_clean s = true -> trimStart s = s.
Proof.
  destruct s as [|a t]; simpl; [reflexivity|].
  now destruct (is_space a).
Qed.

Lemma trimStart_suffix (s : jsstr) : exists p, s = p ++ trimStart s.
Proof.
  induction s as [|a t [p Hp]]; simpl.
  - now exists [].
  - destruct (is_space a).
    + exists (a :: p). simpl. now rewrite <- Hp.
    + now exists [].
Qed.

Lemma trimEnd_prefix (s : jsstr) : exists q, s = trimEnd s ++ q.
Proof.
  unfold trimEnd. destruct (trimStart_suffix (rev s)) as [p Hp].
  exists (rev p). rewrite <- rev_app_distr, <- Hp. now rewrite rev_involutive.
Qed.

Lemma starts_clean_prefix (a b : jsstr) :
  starts_clean (a ++ b) = true -> starts_clean a = true.
Proof. now destruct a. Qed.

Lemma trimEnd_idempotent (s : jsstr) : trimEnd (trimEnd s) = trimEnd s.
Proof.
  unfold trimEnd. rewrite rev_involutive.
  now rewrite (trimStart_fixed _ (trimStart_starts_clean (rev s))).
Qed.

Lemma trim_starts_clean (s : jsstr) : starts_clean (trim s) = true.
Proof.
  unfold trim. destruct (trimEnd_prefix (trimStart s)) as [q Hq].
  apply starts_clean_prefix with (b := q). rewrite <- Hq.
  apply trimStart_starts_clean.
Qed.

Lemma trim_idempotent (s : jsstr) : trim (trim s) = trim s.
Proof.
  unfold trim at 1. rewrite (trimStart_fixed _ (trim_starts_clean s)).
  unfold trim. apply trimEnd_idempotent.
Qed.

Lemma trimStart_length (s : jsstr) :
  (List.length (trimStart s) <= List.length s)%nat.
Proof.
  induction s as [|a t IH]; simpl; [lia|].
  destruct (is_space a); simpl; lia.
Qed.

Lemma trim_length (s : jsstr) : (List.length (trim s) <= List.length s)%nat.
Proof.
  unfold trim, trimEnd. rewrite length_rev.
  pose proof (trimStart_length (rev (trimStart s))) as H.
  rewrite length_rev in H. pose proof (trimStart_length s). lia.
Qed.

(** The fuel of [star] is never used up: each round consumes input, so any
    amount above what remains gives the same answer. *)
Lemma star_fuel (step : pos -> list pos) (n m : nat) :
  forall x, (remaining x < n)%nat -> (remaining x < m)%nat ->
            star step n x = star step m x.
Proof.
  revert m. induction n as [|n IH]; intros m x Hn Hm; [lia|].
  destruct m as [|m]; [lia|]. simpl. f_equal.
  apply flat_map_ext. intros y.
  destruct (remaining y <? remaining x) eqn:E; [|reflexivity].
  apply Nat.ltb_lt in E. apply IH; lia.
Qed.

Lemma matches_star_fuel (a : regex) (x : pos) (n : nat) :
  (remaining x < n)%nat -> matches (Star a) x = star (matches a) n x.
Proof.
  intros H. change (star (matches a) (S (remaining x)) x = star (matches a) n x).
  apply star_fuel; lia.
Qed.

(** Where a pattern is not found, replacing it changes nothing. *)
Lemma replace_from_not_found (r : regex) (s : jsstr) :
  forall prev, found_from r prev s = false -> replace_from r 0 prev s = s.
Proof.
  induction s as [|a t IH]; intros prev H; simpl in *; [reflexivity|].
  destruct (match_at r _) as [[|k]|];
    try discriminate; now rewrite (IH _ H).
Qed.

Lemma replace_not_found (r : regex) (s : jsstr) :
  found r s = false -> replace r s = s.
Proof. apply replace_from_not_found. Qed.

(** Replacing never lengthens, and shortens where the pattern is found. *)
Lemma replace_from_length (r : regex) (s : jsstr) :
  forall k prev, (List.length (replace_from r k prev s) <= List.length s)%nat.
Proof.
  induction s as [|a t IH]; intros k prev; simpl; [lia|].
  destruct k as [|k].
  - destruct (match_at r _) as [[|j]|]; simpl.
    + specialize (IH O (Some a)). lia.
    + specialize (IH j (Some a)). lia.
    + specialize (IH O (Some a)). lia.
  - specialize (IH k (Some a)). lia.
Qed.

Lemma replace_length (r : regex) (s : jsstr) :
  (List.length (replace r s) <= List.length s)%nat.
Proof. apply replace_from_length. Qed.

Lemma replace_from_found (r : regex) (s : jsstr) :
  forall prev, found_from r prev s = true ->
               (List.length (replace_from r 0 prev s) < List.length s)%nat.
Proof.
  induction s as [|a t IH]; intros prev H; simpl in *; [discriminate|].
  destruct (match_at r _) as [[|k]|]; simpl.
  - specialize (IH _ H). lia.
  - pose proof (replace_from_length r t k (Some a)). lia.
  - specialize (IH _ H). lia.
Qed.

Lemma replace_found (r : regex) (s : jsstr) :
  found r s = true -> (List.length (replace r s) < List.length s)%nat.
Proof. apply replace_from_found. Qed.

(* ===================================================================== *)
(** ** The input guard: sanitizeInput *)
(* ===================================================================== *)

Lemma sanitizeInput_length (s : jsstr) :
  (List.length (sanitizeInput s) <= List.length s)%nat.
Proof.
  unfold sanitizeInput.
  pose proof (trim_length
    (replace event_handler (replace javascript_scheme (replace script_block s)))).
  pose proof (replace_length event_handler
    (replace javascript_scheme (replace script_block s))).
  pose proof (replace_length javascript_scheme (replace script_block s)).
  pose proof (replace_length script_block s). lia.
Qed.

Lemma sanitizeInput_trimmed (s : jsstr) :
  trim (sanitizeInput s) = sanitizeInput s.
Proof. unfold sanitizeInput. apply trim_idempotent. Qed.

Lemma sanitizeInput_clean_fixed (t : jsstr) :
  trim t = t -> clean t = true -> sanitizeInput t = t.
Proof.
  unfold clean. intros Ht H.
  apply andb_prop in H as [H H3]. apply andb_prop in H as [H1 H2].
  apply negb_true_iff in H1, H2, H3. unfold sanitizeInput.
  now rewrite (replace_not_found _ _ H1), (replace_not_found _ _ H2),
    (replace_not_found _ _ H3).
Qed.

(** What is stripped in one pass can uncover something to strip: a second
    pass then shortens the text again. *)
Lemma sanitizeInput_not_clean_shrinks (t : jsstr) :
  clean t = false ->
  (List.length (sanitizeInput t) < List.length t)%nat.
Proof.
  unfold clean, sanitizeInput. intros H.
  pose proof (trim_length
    (replace event_handler (replace javascript_scheme (replace script_block t))))
    as L4.
  pose proof (replace_length event_handler
    (replace javascript_scheme (replace script_block t))) as L3.
  pose proof (replace_length javascript_scheme (replace script_block t)) as L2.
  pose proof (replace_length script_block t) as L1.
  destruct (found script_block t) eqn:F1.
  { pose proof (replace_found _ _ F1). lia. }
  rewrite (replace_not_found _ _ F1) in *.
  destruct (found javascript_scheme t) eqn:F2.
  { pose proof (replace_found _ _ F2). lia. }
  rewrite (replace_not_found _ _ F2) in *.
  destruct (found event_handler t) eqn:F3; [|discriminate].
  pose proof (replace_found _ _ F3). lia.
Qed.

(** C1, as the code has it: a second pass of [sanitizeInput] changes nothing
    when the first pass left no script block, no [javascript:] scheme and no
    event-handler attribute behind. *)
Theorem sanitizeInput_idempotent_when_clean (s : jsstr) :
  clean (sanitizeInput s) = true ->
  sanitizeInput (sanitizeInput s) = sanitizeInput s.
Proof.
  intros H. apply sanitizeInput_clean_fixed; [|exact H].
  apply sanitizeInput_trimmed.
Qed.

Lemma sanitizeInput_idempotent_when_clean_witness :
  clean (sanitizeInput (str "  <script>alert(1)</script>hello onclick=go  "))
    = true
  /\ sanitizeInput
       (sanitizeInput (str "  <script>alert(1)</script>hello onclick=go  "))
     = sanitizeInput (str "  <script>alert(1)</script>hello onclick=go  ").
Proof.
  split.
  - vm_compute. reflexivity.
  - apply (sanitizeInput_idempotent_when_clean
             (str "  <script>alert(1)</script>hello onclick=go  ")).
    vm_compute. reflexivity.
Defined.

(** The condition is exact: the second pass is the identity only then. *)
Lemma sanitizeInput_idempotent_only_when_clean (s : jsstr) :
  sanitizeInput (sanitizeInput s) = sanitizeInput s ->
  clean (sanitizeInput s) = true.
Proof.
  intros H. destruct (clean (sanitizeInput s)) eqn:E; [reflexivity|].
  apply sanitizeInput_not_clean_shrinks in E. rewrite H in E. lia.
Qed.

(** C1 fails as stated: removing the inner [javascript:] of
    [javajavascript:script:] splices a new one together, which only a second
    pass removes. *)
Lemma sanitizeInput_not_idempotent :
  sanitizeInput (str "javajavascript:script:") = str "javascript:"
  /\ sanitizeInput (sanitizeInput (str "javajavascript:script:")) = []
  /\ sanitizeInput (sanitizeInput (str "javajavascript:script:"))
     <> sanitizeInput (str "javajavascript:script:").
Proof.
  split; [vm_compute; reflexivity|].
  split; [vm_compute; reflexivity|].
  vm_compute. discriminate.
Qed.

(* ===================================================================== *)
(** ** The conversation controller *)
(* ===================================================================== *)

(** The [finally] of [sendMessage]. *)
Lemma sendMessage_settled_isLoading (r : FetchResult) (w : World) :
  isLoading (exec (sendMessage_settled r) w) = false.
Proof.
  unfold sendMessage_settled. destruct r as [e|response]; run_handler.
  - reflexivity.
  - destruct (ok response), (status response =? 401)%Z,
      (status response =? 429)%Z, (json response) as [e|[m|l]];
      reflexivity.
Qed.

(** A request that fails: the notice shown, and nothing else changes but
    the pending flag. *)
Lemma sendMessage_settled_http_failure (response : Response) (w : World) :
  ok response = false ->
  exec (sendMessage_settled (Fulfilled response)) w
  = with_isLoading false
      (with_notices
         (fun l => l ++ [Toast (str "Error")
                           (category_text (category_of_status (status response)))
                           (str "destructive")]) w).
Proof.
  intros H. unfold sendMessage_settled, category_of_status. run_handler.
  rewrite H.
  destruct (status response =? 401)%Z, (status response =? 429)%Z; reflexivity.
Qed.

Lemma sendMessage_settled_rejected (e : Thrown) (w : World) :
  exec (sendMessage_settled (Rejected e)) w
  = with_isLoading false
      (with_notices
         (fun l => l ++ [Toast (str "Error")
                           match e with
                           | ErrorObject m => m
                           | NotAnError => send_failed
                           end
                           (str "destructive")]) w).
Proof. reflexivity. Qed.

Lemma sendMessage_settled_failed_messages (r : FetchResult) (w : World) :
  failed r = true -> messages (exec (sendMessage_settled r) w) = messages w.
Proof.
  destruct r as [e|response]; intros H.
  - now rewrite sendMessage_settled_rejected.
  - cbn [failed] in H. apply negb_true_iff in H.
    now rewrite sendMessage_settled_http_failure.
Qed.

(** [sendMessage] with a credential: the user's message is appended, the
    flag raised and one request left in flight. *)
Lemma sendMessage_with_key (text : jsstr) (w : World) :
  truthy_opt (apiKey w) = true ->
  let userMessage :=
    {| id := toString (next_tick w); content := text; isUser := true;
       timestamp := ticks w (S (reads w)) |} in
  messages (exec (sendMessage text) w) = messages w ++ [userMessage]
  /\ isLoading (exec (sendMessage text) w) = true
  /\ inflight (exec (sendMessage text) w) = S (inflight w)
  /\ notices (exec (sendMessage text) w) = notices w
  /\ lastMessageTime (exec (sendMessage text) w) = lastMessageTime w
  /\ reads (exec (sendMessage text) w) = S (S (reads w)).
Proof.
  destruct w as [ms ld key sh inp lmt iv tk rd nt st fl].
  cbn [apiKey]. intros H. unfold sendMessage. run_handler.
  rewrite H. cbn [negb]. repeat split; reflexivity.
Qed.

(** [sendMessage] without a credential: a notice, and nothing else. *)
Lemma sendMessage_without_key (text : jsstr) (w : World) :
  truthy_opt (apiKey w) = false ->
  exec (sendMessage text) w
  = with_notices
      (fun l => l ++ [Toast (str "API Key Required")
                        (str "Please set your API key to send messages.")
                        (str "destructive")]) w.
Proof.
  destruct w as [ms ld key sh inp lmt iv tk rd nt st fl].
  cbn [apiKey]. intros H. unfold sendMessage. run_handler.
  now rewrite H.
Qed.

(** *** The input guard inside [handleSubmit] *)

Lemma validateInput_eval (text : jsstr) (w : World) :
  eval (validateInput text) w
  = report (first_rejection
              (negb (truthy (trim text)))
              (JS.length text >? MAX_MESSAGE_LENGTH)%Z
              (next_tick w - lastMessageTime w <? RATE_LIMIT_DELAY)%Z).
Proof.
  unfold validateInput, first_rejection, report.
  destruct (negb (truthy (trim text))); [reflexivity|].
  destruct (JS.length text >? MAX_MESSAGE_LENGTH)%Z; [reflexivity|].
  destruct w; run_handler.
  match goal with |- context [(?a <? ?b)%Z] => destruct (a <? b)%Z end;
    reflexivity.
Qed.

(** [validateInput] changes nothing but the number of clock readings. *)
Lemma validateInput_exec (text : jsstr) (w : World) :
  exec (validateInput text) w = w
  \/ exec (validateInput text) w = with_reads (S (reads w)) w.
Proof.
  unfold validateInput.
  destruct (negb (truthy (trim text))); [left; now destruct w|].
  destruct (JS.length text >? MAX_MESSAGE_LENGTH)%Z; [left; now destruct w|].
  right. destruct w; run_handler.
  match goal with |- context [(?a <? ?b)%Z] => destruct (a <? b)%Z end;
    reflexivity.
Qed.

Lemma rejection_text_truthy (r : Rejection) : truthy (rejection_text r) = true.
Proof. now destruct r. Qed.

Lemma handleSubmit_unfold (w : World) :
  let text := sanitizeInput (input w) in
  let w1 := exec (validateInput text) w in
  exec handleSubmit w
  = match first_rejection
            (negb (truthy (trim text)))
            (JS.length text >? MAX_MESSAGE_LENGTH)%Z
            (next_tick w - lastMessageTime w <? RATE_LIMIT_DELAY)%Z with
    | Some reason =>
        with_notices (fun l => l ++ [Alert (rejection_text reason)]) w1
    | None =>
        if isLoading w then w1
        else
          let w2 := exec (sendMessage text) w1 in
          with_lastMessageTime (next_tick w2)
            (with_reads (S (reads w2)) (with_input [] w2))
    end.
Proof.
  intros text w1.
  pose proof (validateInput_eval text w) as Hv.
  assert (Hl : isLoading w1 = isLoading w).
  { subst w1. destruct (validateInput_exec text w) as [-> | ->];
      now destruct w. }
  unfold handleSubmit, bind at 1, gets at 1. unfold bind at 1.
  unfold eval in Hv. subst w1 text. unfold exec in *.
  destruct (validateInput (sanitizeInput (input w)) w) as [v w1].
  cbn [fst snd] in *. subst v.
  destruct (first_rejection _ _ _) as [reason|]; cbn [report isValid error negb].
  - rewrite rejection_text_truthy. reflexivity.
  - unfold bind at 1, gets at 1. rewrite Hl.
    destruct (isLoading w); cbn [negb]; [reflexivity|].
    unfold bind at 1. destruct (sendMessage _ w1) as [[] w2].
    cbn [snd]. now destruct w2.
Qed.

(** *** Frames *)

(** After its [await], [sendMessage] touches the conversation, the notices,
    the clock and the pending flag, and appends at most one message. *)
Lemma sendMessage_settled_frame (r : FetchResult) (w : World) :
  exists suffix nt rd,
    exec (sendMessage_settled r) w
    = with_isLoading false
        (with_messages (fun l => l ++ suffix)
           (with_notices (fun _ => nt) (with_reads rd w))).
Proof.
  destruct w as [ms ld key sh inp lmt iv tk rd nt st fl].
  unfold sendMessage_settled. destruct r as [e|response]; run_handler.
  - exists [], (nt ++ [Toast (str "Error")
                         match e with ErrorObject m => m | NotAnError => send_failed end
                         (str "destructive")]), rd.
    now rewrite app_nil_r.
  - destruct (ok response), (status response =? 401)%Z,
      (status response =? 429)%Z, (json response) as [e|[m|l]];
      cbn [negb];
      first [ now eexists [], _, _; rewrite app_nil_r
            | now eexists [_], _, _ ].
Qed.

Lemma validateInput_frame (text : jsstr) (w : World) :
  exists rd, exec (validateInput text) w = with_reads rd w.
Proof.
  destruct (validateInput_exec text w) as [-> | ->].
  - exists (reads w). now destruct w.
  - now exists (S (reads w)).
Qed.

Lemma settle_exec (r : FetchResult) (w : World) :
  exec (settle r) w
  = match inflight w with
    | O => w
    | S n => exec (sendMessage_settled r) (with_inflight n w)
    end.
Proof.
  unfold settle, exec, bind at 1, gets at 1.
  destruct (inflight w); [reflexivity|]. unfold bind at 1, modify at 1.
  reflexivity.
Qed.

Lemma submit_exec (r : FetchResult) (w : World) :
  exec (submit r) w
  = if inflight w <? inflight (exec handleSubmit w)
    then exec (settle r) (exec handleSubmit w)
    else exec handleSubmit w.
Proof.
  unfold submit, exec, bind at 1, gets at 1. unfold bind at 1.
  destruct (handleSubmit w) as [[] w']. unfold bind at 1, gets at 1.
  cbn [snd]. now destruct (inflight w <? inflight w').
Qed.

(** What [handleSubmit] does to the controller, case by case: a rejection
    or a dropped submission changes neither the conversation nor the
    pending flag; an accepted one is a call of [sendMessage]. *)
Lemma handleSubmit_controller (w : World) :
  (messages (exec handleSubmit w) = messages w
   /\ isLoading (exec handleSubmit w) = isLoading w
   /\ inflight (exec handleSubmit w) = inflight w)
  \/
  (accepts w = true
   /\ truthy_opt (apiKey w) = true
   /\ (exists m, messages (exec handleSubmit w) = messages w ++ [m]
                 /\ isUser m = true
                 /\ content m = sanitizeInput (input w))
   /\ isLoading (exec handleSubmit w) = true
   /\ inflight (exec handleSubmit w) = S (inflight w)).
Proof.
  rewrite handleSubmit_unfold.
  pose proof (validateInput_eval (sanitizeInput (input w)) w) as Hv.
  destruct (validateInput_frame (sanitizeInput (input w)) w) as [rd Hrd].
  rewrite Hrd.
  destruct (first_rejection _ _ _) as [reason|] eqn:F.
  - left. now destruct w.
  - destruct (isLoading w) eqn:L; [left; now destruct w|].
    destruct (truthy_opt (apiKey w)) eqn:K.
    + right.
      destruct (sendMessage_with_key (sanitizeInput (input w)) (with_reads rd w))
        as (Hm & Hl & Hi & _); [now destruct w|].
      unfold accepts. rewrite Hv, L.
      split; [reflexivity|]. split; [reflexivity|].
      cbv zeta.
      set (w2 := exec (sendMessage (sanitizeInput (input w))) (with_reads rd w)) in *.
      split; [|split].
      * eexists. split.
        { transitivity (messages w2); [now destruct w2|].
          rewrite Hm. now destruct w. }
        split; reflexivity.
      * transitivity (isLoading w2); [now destruct w2|exact Hl].
      * transitivity (inflight w2); [now destruct w2|].
        rewrite Hi. now destruct w.
    + left. rewrite sendMessage_without_key by now destruct w.
      now destruct w.
Qed.

(** *** reset *)

(** C2, as the code has it: [handleNewChat] replaces the conversation by
    exactly one message, the seeded greeting authored by the assistant, and
    leaves the pending flag as it was. *)
Theorem handleNewChat_reseeds_and_keeps_flag (w : World) :
  messages (exec handleNewChat w) = [seed (next_tick w)]
  /\ List.length (messages (exec handleNewChat w)) = 1%nat
  /\ isUser (seed (next_tick w)) = false
  /\ content (seed (next_tick w)) = greeting
  /\ isLoading (exec handleNewChat w) = isLoading w.
Proof. destruct w. repeat split. Qed.

(** C2 fails as stated: with a request in flight the flag is set, and it is
    still set after [handleNewChat]. *)
Lemma handleNewChat_does_not_clear_pending :
  isLoading awaiting_reply = true
  /\ isLoading (exec handleNewChat awaiting_reply) = true.
Proof. vm_compute. split; reflexivity. Qed.

(** *** submit and the pending flag *)

(** A submission made while a request is pending is turned down by the
    input guard or dropped: no request goes out for it and the flag and
    the conversation stay as they were. *)
Lemma submit_while_pending (r : FetchResult) (w : World) :
  isLoading w = true ->
  isLoading (exec (submit r) w) = true
  /\ messages (exec (submit r) w) = messages w
  /\ inflight (exec (submit r) w) = inflight w.
Proof.
  intros L. rewrite submit_exec.
  destruct (handleSubmit_controller w) as [(Hm & Hl & Hi) | (A & _)].
  - rewrite Hi, Nat.ltb_irrefl, Hl, Hm. now repeat split.
  - unfold accepts in A. rewrite L in A. cbn [negb] in A.
    rewrite andb_false_r in A. discriminate.
Qed.

(** C3, as the code has it: a submission made while no request is pending
    ends, whatever its outcome, with the pending flag down. *)
Theorem submit_ends_not_pending (r : FetchResult) (w : World) :
  isLoading w = false -> isLoading (exec (submit r) w) = false.
Proof.
  intros L. rewrite submit_exec.
  destruct (handleSubmit_controller w) as [(_ & Hl & Hi) | (_ & _ & _ & _ & Hi)].
  - rewrite Hi, Nat.ltb_irrefl, Hl. exact L.
  - rewrite Hi. replace (inflight w <? S (inflight w)) with true
      by (symmetry; apply Nat.ltb_lt; lia).
    rewrite settle_exec, Hi. apply sendMessage_settled_isLoading.
Qed.

Lemma submit_ends_not_pending_witness :
  isLoading (run [Mount (Some sample_key); InputChange (str "hi")]
                 (boot slow_clock)) = false
  /\ isLoading
       (exec (submit sample_reply)
          (run [Mount (Some sample_key); InputChange (str "hi")]
               (boot slow_clock))) = false.
Proof.
  split.
  - vm_compute. reflexivity.
  - apply (submit_ends_not_pending sample_reply
             (run [Mount (Some sample_key); InputChange (str "hi")]
                  (boot slow_clock))).
    vm_compute. reflexivity.
Defined.

(** C3 fails as stated: a submission made while a request is pending is
    turned down by the input guard (the input was cleared when the first
    one was accepted) and ends with the flag still up. *)
Lemma submit_while_pending_stays_pending :
  isLoading awaiting_reply = true
  /\ notices (exec (submit sample_reply) awaiting_reply) = [Alert empty_error]
  /\ messages (exec (submit sample_reply) awaiting_reply)
     = messages awaiting_reply
  /\ isLoading (exec (submit sample_reply) awaiting_reply) = true.
Proof. vm_compute. repeat split; reflexivity. Qed.

(** *** Failed completion requests *)

(** C4, where the code departs from it: when [fetch] rejects with an
    [Error], as it does on a network failure, the notice carries the
    message of that error, which is none of the three categories; the
    conversation is left as it was. *)
Theorem network_error_notice_carries_raw_message (w : World) :
  notices (exec (sendMessage_settled
                   (Rejected (ErrorObject (str "Failed to fetch")))) w)
  = notices w ++ [Toast (str "Error") (str "Failed to fetch")
                        (str "destructive")]
  /\ jsstr_eqb (str "Failed to fetch") (category_text Unavailable) = false
  /\ jsstr_eqb (str "Failed to fetch") (category_text RateLimiting) = false
  /\ jsstr_eqb (str "Failed to fetch") (category_text AuthenticationFailure)
     = false
  /\ messages (exec (sendMessage_settled
                       (Rejected (ErrorObject (str "Failed to fetch")))) w)
     = messages w.
Proof.
  rewrite sendMessage_settled_rejected. destruct w.
  repeat split; vm_compute; reflexivity.
Qed.

(** The part of C4 that holds: a response whose status is not 2xx is
    reported under the category of its status, and no message is added. *)
Lemma http_failure_is_categorised (response : Response) (w : World) :
  ok response = false ->
  notices (exec (sendMessage_settled (Fulfilled response)) w)
  = notices w ++ [Toast (str "Error")
                        (category_text (category_of_status (status response)))
                        (str "destructive")]
  /\ messages (exec (sendMessage_settled (Fulfilled response)) w) = messages w
  /\ category_of_status 401 = AuthenticationFailure
  /\ category_of_status 429 = RateLimiting.
Proof.
  intros H. rewrite (sendMessage_settled_http_failure _ _ H).
  destruct w. repeat split.
Qed.

(** *** Successful completion requests *)

Lemma sendMessage_settled_success (response : Response)
    (l : list (option Choice)) (w : World) :
  ok response = true ->
  json response = JsonData (ChoiceList l) ->
  exec (sendMessage_settled (Fulfilled response)) w
  = with_isLoading false
      (with_messages
         (fun prev =>
            prev ++ [{| id := toString (next_tick w + 1);
                        content := or_else (choice_content (index0 l)) placeholder;
                        isUser := false;
                        timestamp := ticks w (S (reads w)) |}])
         (with_reads (S (S (reads w))) w)).
Proof.
  intros Hok Hjson. unfold sendMessage_settled. run_handler.
  rewrite Hok, Hjson. now destruct w.
Qed.

(** C5, as the code has it: a 2xx response with a list of choices appends
    exactly one message, authored by the assistant; its text is the content
    of the first choice when that is present and not empty, and the
    placeholder when it is absent or empty. *)
Theorem completion_appends_one_reply (response : Response)
    (l : list (option Choice)) (w : World) :
  ok response = true ->
  json response = JsonData (ChoiceList l) ->
  exists m,
    messages (exec (sendMessage_settled (Fulfilled response)) w)
    = messages w ++ [m]
    /\ isUser m = false
    /\ (forall c, choice_content (index0 l) = Some c -> c <> [] ->
                  content m = c)
    /\ (choice_content (index0 l) = None \/ choice_content (index0 l) = Some []
        -> content m = placeholder).
Proof.
  intros Hok Hjson. rewrite (sendMessage_settled_success _ w Hok Hjson).
  eexists. split; [now destruct w|]. split; [reflexivity|].
  cbn [content]. split.
  - intros c -> Hc. destruct c; [contradiction|reflexivity].
  - intros [-> | ->]; reflexivity.
Qed.

Lemma completion_appends_one_reply_witness :
  exists m,
    messages (exec (sendMessage_settled sample_reply) awaiting_reply)
    = messages awaiting_reply ++ [m]
    /\ isUser m = false
    /\ content m = str "hello".
Proof.
  destruct (@completion_appends_one_reply
              {| status := 200;
                 json := JsonData (ChoiceList
                   [Some {| choice_message :=
                              Some {| message_content := Some (str "hello") |} |}]) |}
              [Some {| choice_message :=
                         Some {| message_content := Some (str "hello") |} |}]
              awaiting_reply eq_refl eq_refl)
    as (m & Hm & Hu & Hc & _).
  exists m. split; [exact Hm|]. split; [exact Hu|].
  apply Hc; [reflexivity|discriminate].
Defined.

(** C5 fails as stated: a first choice whose content is present but is the
    empty string is answered with the placeholder, not with that content. *)
Lemma empty_content_is_replaced_by_placeholder :
  exists m,
    messages (exec (sendMessage_settled empty_reply) awaiting_reply)
    = messages awaiting_reply ++ [m]
    /\ content m = placeholder
    /\ content m <> [].
Proof.
  eexists. split; [vm_compute; reflexivity|].
  split; [vm_compute; reflexivity|]. vm_compute. discriminate.
Qed.

(** *** A failed submission keeps the user's message *)

(** When [sendMessage] has a credential and its request fails at once,
    the conversation afterwards is the one before followed by the user's
    message, which was appended before the request went out. *)
Lemma sendMessage_then_failure (text : jsstr) (r : FetchResult)
    (w : World) :
  truthy_opt (apiKey w) = true ->
  failed r = true ->
  messages (exec (sendMessage text) w)
  = messages w ++ [{| id := toString (next_tick w); content := text;
                      isUser := true; timestamp := ticks w (S (reads w)) |}]
  /\ sent (exec (sendMessage text) w) <> sent w
  /\ messages (exec (sendMessage_settled r) (exec (sendMessage text) w))
     = messages w ++ [{| id := toString (next_tick w); content := text;
                         isUser := true; timestamp := ticks w (S (reads w)) |}].
Proof.
  intros K F.
  destruct (sendMessage_with_key text w K) as (Hm & _).
  split; [exact Hm|]. split.
  - unfold sendMessage. destruct w as [ms ld key sh inp lmt iv tk rd nt st fl].
    cbn [apiKey] in K. run_handler. rewrite K. cbn [negb sent].
    intros E. apply (f_equal (@List.length Request)) in E.
    rewrite length_app in E. simpl in E. lia.
  - rewrite (sendMessage_settled_failed_messages _ _ F). exact Hm.
Qed.

(** The same from [handleSubmit] on: an accepted submission whose request
    fails at once leaves the conversation one message longer, the user's, carrying
    the sanitized input. *)
Lemma failed_submission_end_to_end (r : FetchResult) (w : World) :
  accepts w = true ->
  truthy_opt (apiKey w) = true ->
  failed r = true ->
  exists m,
    messages (exec (submit r) w) = messages w ++ [m]
    /\ isUser m = true
    /\ content m = sanitizeInput (input w).
Proof.
  intros A K F. rewrite submit_exec.
  destruct (handleSubmit_controller w)
    as [(Hm & Hl & Hi) | (_ & _ & (m & Hm & Hu & Hc) & _ & Hi)].
  - exfalso. revert Hi. rewrite handleSubmit_unfold.
    unfold accepts in A. rewrite validateInput_eval in A.
    destruct (validateInput_frame (sanitizeInput (input w)) w) as [rd ->].
    destruct (first_rejection _ _ _); [discriminate|].
    destruct (isLoading w); [discriminate|]. cbv zeta.
    destruct (sendMessage_with_key (sanitizeInput (input w)) (with_reads rd w))
      as (_ & _ & Hi & _); [now destruct w|].
    set (w2 := exec (sendMessage (sanitizeInput (input w))) (with_reads rd w))
      in *.
    replace (inflight (with_lastMessageTime (next_tick w2)
               (with_reads (S (reads w2)) (with_input [] w2))))
      with (inflight w2) by now destruct w2.
    rewrite Hi. destruct w; cbn. lia.
  - rewrite Hi. replace (inflight w <? S (inflight w)) with true
      by (symmetry; apply Nat.ltb_lt; lia).
    rewrite settle_exec, Hi.
    rewrite (sendMessage_settled_failed_messages _ _ F).
    exists m. split; [|now split].
    rewrite <- Hm. now destruct (exec handleSubmit w).
Qed.

(* ===================================================================== *)
(** ** The input guard: validation and the rate limit *)
(* ===================================================================== *)

(** C7: [validateInput] reports the first check that fails, the checks
    being taken in the order empty, too long, too soon; a failed validation
    carries that one reason, a passed one none, and the three reasons have
    different texts. *)
Theorem validateInput_reports_first_rejection (text : jsstr) (w : World) :
  eval (validateInput text) w
  = report (first_rejection
              (negb (truthy (trim text)))
              (JS.length text >? MAX_MESSAGE_LENGTH)%Z
              (next_tick w - lastMessageTime w <? RATE_LIMIT_DELAY)%Z)
  /\ jsstr_eqb empty_error too_long_error = false
  /\ jsstr_eqb empty_error rate_limit_error = false
  /\ jsstr_eqb too_long_error rate_limit_error = false.
Proof.
  split; [apply validateInput_eval|].
  repeat split; vm_compute; reflexivity.
Qed.









(* ===================================================================== *)
(** ** The conversation is never empty *)
(* ===================================================================== *)

Lemma render_messages (w : World) : messages (render w) = messages w.
Proof. unfold render. now destruct w as [ms ld key []]. Qed.

(** Every event appends to the conversation (possibly nothing) or replaces
    it by the seeded greeting alone. *)
Lemma step_messages (w : World) (e : event) :
  (exists suffix, messages (step w e) = messages w ++ suffix)
  \/ (exists now, messages (step w e) = [seed now]).
Proof.
  unfold step. rewrite render_messages.
  destruct e as [k|value| | | |k|r]; cbn [handle].
  - left. exists []. rewrite app_nil_r. unfold mount_effect.
    destruct k as [k|]; [destruct (truthy k)|]; now destruct w.
  - left. exists []. rewrite app_nil_r. unfold handleInputChange.
    destruct (JS.length value <=? MAX_MESSAGE_LENGTH)%Z; now destruct w.
  - left. destruct (handleSubmit_controller w)
      as [(Hm & _) | (_ & _ & (m & Hm & _) & _)].
    + exists []. now rewrite app_nil_r.
    + now exists [m].
  - right. exists (next_tick w). now destruct w.
  - left. exists []. rewrite app_nil_r. now destruct w.
  - left. exists []. rewrite app_nil_r. now destruct w.
  - left. rewrite settle_exec. destruct (inflight w) as [|n].
    + exists []. now rewrite app_nil_r.
    + destruct (sendMessage_settled_frame r (with_inflight n w))
        as (suffix & nt & rd & ->).
      exists suffix. now destruct w.
Qed.

Lemma step_nonempty (w : World) (e : event) :
  messages w <> [] -> messages (step w e) <> [].
Proof.
  intros H. destruct (step_messages w e) as [[suffix ->] | [now ->]].
  - intros E. apply app_eq_nil in E as [E _]. contradiction.
  - discriminate.
Qed.

Lemma run_nonempty (es : list event) :
  forall w, messages w <> [] -> messages (run es w) <> [].
Proof.
  induction es as [|e es IH]; intros w H; [exact H|].
  unfold run in *. cbn [fold_left]. apply IH. now apply step_nonempty.
Qed.

(** C8: from the first render on, whatever events follow (the mount effect,
    typing, submissions with any outcome, resets, screen changes, requests
    settling), the conversation is never empty; each event appends to it or
    replaces it by the single seeded greeting. *)
Theorem conversation_never_empty (clock : nat -> Z) (es : list event) :
  messages (boot clock) = [seed (clock O)]
  /\ messages (run es (boot clock)) <> []
  /\ forall w e,
       (exists suffix, messages (step w e) = messages w ++ suffix)
       \/ (exists now, messages (step w e) = [seed now]).
Proof.
  split; [reflexivity|]. split.
  - apply run_nonempty. discriminate.
  - apply step_messages.
Qed.

(* ===================================================================== *)
(** ** The credential: format check *)
(* ===================================================================== *)

Lemma trimStart_keeps_last (l : jsstr) (a : code) :
  is_space a = false -> trimStart (l ++ [a]) <> [].
Proof.
  intros H. induction l as [|b l IH]; simpl.
  - rewrite H. discriminate.
  - destruct (is_space b); [exact IH|discriminate].
Qed.

Lemma trim_truthy (a : code) (s : jsstr) :
  is_space a = false -> truthy (trim (a :: s)) = true.
Proof.
  intros H. unfold trim. cbn [trimStart]. rewrite H.
  unfold trimEnd. cbn [rev].
  destruct (trimStart (rev s ++ [a])) as [|b t] eqn:E.
  - now apply trimStart_keeps_last in E.
  - cbn [rev]. now destruct (rev t).
Qed.

Lemma startsWith_prefix_truthy (raw : jsstr) :
  startsWith raw KEY_PREFIX = true -> truthy (trim raw) = true.
Proof.
  destruct raw as [|a s]; [discriminate|].
  intros H. change KEY_PREFIX with (115%N :: str "k-or-v1-") in H.
  cbn [startsWith] in H. apply andb_prop in H as [H _].
  apply N.eqb_eq in H. subst a. now apply trim_truthy.
Qed.

Lemma validateFormat_startsWith (raw : jsstr) :
  validateFormat raw = startsWith raw KEY_PREFIX.
Proof.
  unfold validateFormat. destruct (startsWith raw KEY_PREFIX) eqn:E.
  - now rewrite startsWith_prefix_truthy.
  - apply andb_false_r.
Qed.

(** C9: the format check accepts exactly the strings that start with
    [sk-or-v1-]; a request goes out for those and for no others;
    [sk-or-v1-abc] is accepted and [abc123] is not. *)
Theorem validateFormat_accepts_iff_prefix (raw : jsstr) (w : World) :
  validateFormat raw = startsWith raw KEY_PREFIX
  /\ sent (exec (validateAndSetApiKey raw) w)
     = sent w ++ (if startsWith raw KEY_PREFIX
                  then [GetModels (str "Bearer " ++ raw)] else [])
  /\ validateFormat (str "sk-or-v1-abc") = true
  /\ validateFormat (str "abc123") = false
  /\ sent (exec (validateAndSetApiKey (str "abc123")) w) = sent w.
Proof.
  split; [apply validateFormat_startsWith|].
  assert (G : forall s,
    sent (exec (validateAndSetApiKey s) w)
    = sent w ++ (if startsWith s KEY_PREFIX
                 then [GetModels (str "Bearer " ++ s)] else [])).
  { intros s. unfold validateAndSetApiKey.
    destruct (startsWith s KEY_PREFIX) eqn:E.
    - rewrite (startsWith_prefix_truthy _ E). now destruct w.
    - rewrite app_nil_r. destruct (truthy (trim s)); now destruct w. }
  split; [apply G|]. split; [vm_compute; reflexivity|].
  split; [vm_compute; reflexivity|].
  rewrite G. replace (startsWith (str "abc123") KEY_PREFIX) with false
    by (vm_compute; reflexivity).
  apply app_nil_r.
Qed.

(* ===================================================================== *)
(** ** Base64: decoding what was encoded *)
(* ===================================================================== *)

Module Base64Facts.

Import Base64.

(** Induction on a list three elements at a time. *)
Lemma list_ind3 (A : Type) (P : list A -> Prop) :
  P [] -> (forall a, P [a]) -> (forall a b, P [a; b]) ->
  (forall a b c t, P t -> P (a :: b :: c :: t)) ->
  forall l, P l.
Proof.
  intros H0 H1 H2 H3 l.
  assert (H : P l /\ (forall a, P (a :: l)) /\ (forall a b, P (a :: b :: l))).
  { induction l as [|x l (IH0 & IH1 & IH2)].
    - repeat split; auto.
    - repeat split; auto. }
  apply H.
Qed.

Lemma six_bit_complete (n : N) : (n < 64)%N -> In n six_bit.
Proof.
  intros H. unfold six_bit. apply in_map_iff.
  exists (N.to_nat n). split; [apply N2Nat.id|].
  apply in_seq. lia.
Qed.

Lemma b64_value_char (n : N) : (n < 64)%N -> b64_value (b64_char n) = Some n.
Proof.
  intros H. apply six_bit_complete in H. revert n H.
  apply Forall_forall. unfold six_bit.
  repeat (constructor; [vm_compute; reflexivity|]). constructor.
Qed.

Lemma b64_char_plain (n : N) :
  (n < 64)%N ->
  is_ascii_whitespace (b64_char n) = false
  /\ code_eqb (b64_char n) equals_sign = false.
Proof.
  intros H. apply six_bit_complete in H. revert n H.
  apply Forall_forall. unfold six_bit.
  repeat (constructor; [vm_compute; split; reflexivity|]). constructor.
Qed.

Lemma sextets_small (s : list N) :
  bytes s -> Forall (fun n => (n < 64)%N) (sextets s).
Proof.
  unfold bytes. induction s as [|a|a b|a b c t IH] using list_ind3;
    intros H; cbn [sextets].
  - constructor.
  - inversion_clear H. repeat constructor;
      zify; Z.to_euclidean_division_equations; lia.
  - inversion_clear H as [|? ? Ha H']. inversion_clear H' as [|? ? Hb _].
    repeat constructor; zify; Z.to_euclidean_division_equations; lia.
  - inversion_clear H as [|? ? Ha H']. inversion_clear H' as [|? ? Hb H''].
    inversion_clear H'' as [|? ? Hc Ht].
    repeat (constructor;
            [zify; Z.to_euclidean_division_equations; lia|]).
    now apply IH.
Qed.

Lemma decode_sextets (s : list N) : bytes s -> decode (sextets s) = s.
Proof.
  unfold bytes. induction s as [|a|a b|a b c t IH] using list_ind3;
    intros H; cbn [sextets decode].
  - reflexivity.
  - inversion_clear H. f_equal.
    zify; Z.to_euclidean_division_equations; lia.
  - inversion_clear H as [|? ? Ha H']. inversion_clear H' as [|? ? Hb _].
    repeat f_equal; zify; Z.to_euclidean_division_equations; lia.
  - inversion_clear H as [|? ? Ha H']. inversion_clear H' as [|? ? Hb H''].
    inversion_clear H'' as [|? ? Hc Ht].
    rewrite (IH Ht).
    repeat f_equal; zify; Z.to_euclidean_division_equations; lia.
Qed.

Lemma values_chars (l : list N) :
  Forall (fun n => (n < 64)%N) l -> values (map b64_char l) = Some l.
Proof.
  induction 1 as [|n l Hn _ IH]; cbn [map values]; [reflexivity|].
  now rewrite (b64_value_char Hn), IH.
Qed.

Lemma strip_padding_chars (l : list N) (p : jsstr) :
  Forall (fun n => (n < 64)%N) l ->
  p = [] \/ p = [equals_sign] \/ p = [equals_sign; equals_sign] ->
  strip_padding (map b64_char l ++ p) = map b64_char l.
Proof.
  intros Hl Hp. induction Hl as [|n l Hn _ IH]; cbn [map app].
  - destruct Hp as [-> | [-> | ->]]; reflexivity.
  - cbn [strip_padding]. destruct (b64_char_plain Hn) as [_ ->].
    cbn [andb]. now rewrite IH.
Qed.

Lemma filter_chars (l : list N) (p : jsstr) :
  Forall (fun n => (n < 64)%N) l ->
  p = [] \/ p = [equals_sign] \/ p = [equals_sign; equals_sign] ->
  filter (fun c => negb (is_ascii_whitespace c)) (map b64_char l ++ p)
  = map b64_char l ++ p.
Proof.
  intros Hl Hp. induction Hl as [|n l Hn _ IH]; cbn [map app].
  - destruct Hp as [-> | [-> | ->]]; reflexivity.
  - cbn [filter]. destruct (b64_char_plain Hn) as [-> _].
    cbn [negb]. now rewrite IH.
Qed.

Lemma padding_cases (s : list N) :
  padding s = [] \/ padding s = [equals_sign]
  \/ padding s = [equals_sign; equals_sign].
Proof.
  induction s as [|a|a b|a b c t IH] using list_ind3; cbn [padding]; auto.
Qed.

Lemma mod4_step (n : nat) : (S (S (S (S n))) mod 4 = n mod 4)%nat.
Proof.
  change (S (S (S (S n)))) with (4 + n)%nat.
  rewrite Nat.add_comm. apply (Nat.Div0.mod_add n 1 4).
Qed.

Lemma encode_length (s : list N) : (List.length (encode s) mod 4 = 0)%nat.
Proof.
  unfold encode.
  induction s as [|a|a b|a b c t IH] using list_ind3;
    try reflexivity.
  cbn [sextets padding map app List.length]. now rewrite mod4_step.
Qed.

Lemma sextets_length (s : list N) :
  (List.length (map b64_char (sextets s)) mod 4 <> 1)%nat.
Proof.
  induction s as [|a|a b|a b c t IH] using list_ind3;
    try (cbn; discriminate).
  cbn [sextets map List.length]. now rewrite mod4_step.
Qed.

(** Decoding an encoding gives the bytes back. *)
Lemma atob_encode (s : list N) : bytes s -> atob (encode s) = Some s.
Proof.
  intros H. pose proof (sextets_small H) as Hs. unfold atob, encode.
  rewrite (filter_chars Hs (padding_cases s)).
  fold (encode s). rewrite encode_length. cbn [Nat.eqb]. unfold encode.
  rewrite (strip_padding_chars Hs (padding_cases s)).
  destruct (List.length (map b64_char (sextets s)) mod 4 =? 1)%nat eqn:E.
  - apply Nat.eqb_eq in E. now apply sextets_length in E.
  - now rewrite (values_chars Hs), (decode_sextets H).
Qed.

Lemma btoa_bytes (s : jsstr) :
  (exists e, btoa s = Some e) <-> bytes s.
Proof.
  unfold btoa, bytes. split.
  - intros [e He].
    destruct (forallb (fun c => (c <=? 255)%N) s) eqn:E; [|discriminate].
    rewrite forallb_forall in E. apply Forall_forall. intros c Hc.
    apply N.leb_le. now apply E.
  - intros H. replace (forallb (fun c => (c <=? 255)%N) s) with true.
    + now eexists.
    + symmetry. apply forallb_forall. rewrite Forall_forall in H.
      intros c Hc. apply N.leb_le. now apply H.
Qed.

End Base64Facts.

(** X1: [atob] undoes [btoa]: whenever [btoa] encodes a string (it throws
    when a code unit is above 255), decoding the result gives the string
    back. *)
Theorem atob_btoa_round_trip (s e : jsstr) :
  Base64.btoa s = Some e -> Base64.atob e = Some s.
Proof.
  intros H. assert (B : Base64.bytes s).
  { apply Base64Facts.btoa_bytes. now exists e. }
  unfold Base64.btoa in H.
  destruct (forallb (fun c => (c <=? 255)%N) s); [|discriminate].
  injection H as <-. now apply Base64Facts.atob_encode.
Qed.

Lemma atob_btoa_round_trip_witness :
  Base64.atob (str "c2stb3ItdjEtYWJj") = Some (str "sk-or-v1-abc").
Proof.
  apply (@atob_btoa_round_trip (str "sk-or-v1-abc") (str "c2stb3ItdjEtYWJj")).
  vm_compute. reflexivity.
Defined.

(* ===================================================================== *)
(** ** The stored credential *)
(* ===================================================================== *)

Lemma jsstr_eqb_refl (s : jsstr) : jsstr_eqb s s = true.
Proof.
  induction s as [|a s IH]; [reflexivity|].
  cbn [jsstr_eqb]. unfold code_eqb. now rewrite N.eqb_refl, IH.
Qed.

Lemma storage_get_set (k v : jsstr) (l : Storage) :
  storage_get k (storage_set k v l) = Some v.
Proof.
  induction l as [|[k' v'] l IH]; cbn [storage_set storage_get].
  - now rewrite jsstr_eqb_refl.
  - destruct (jsstr_eqb k' k) eqn:E; cbn [storage_get]; now rewrite E.
Qed.

Lemma storage_get_remove (k : jsstr) (l : Storage) :
  storage_get k (storage_remove k l) = None.
Proof.
  unfold storage_remove. induction l as [|[k' v'] l IH]; [reflexivity|].
  cbn [filter fst]. destruct (jsstr_eqb k' k) eqn:E; cbn [negb]; [exact IH|].
  cbn [storage_get]. now rewrite E.
Qed.

Lemma getStoredApiKey_eval (p : Page) :
  peval getStoredApiKey p
  = match storage_get STORAGE_KEY (localStorage p) with
    | Some e => if truthy e then Base64.atob e else None
    | None => None
    end.
Proof.
  unfold getStoredApiKey. run_page.
  now destruct (storage_get STORAGE_KEY _) as [e|].
Qed.

Lemma getStoredApiKey_exec (p : Page) : pexec getStoredApiKey p = p.
Proof. now destruct p. Qed.

Lemma open_page_world (clock : nat -> Z) (stored : Storage) :
  world (open_page clock stored)
  = render (exec (mount_effect
                    (peval getStoredApiKey
                       {| world := boot clock; localStorage := stored;
                          console := [] |}))
                 (boot clock)).
Proof.
  unfold open_page, mount, pexec, pbind, peval, exec, on_world.
  destruct (getStoredApiKey _) as [k p] eqn:E.
  assert (Hp : p = {| world := boot clock; localStorage := stored;
                      console := [] |}).
  { change p with (snd (k, p)). rewrite <- E. apply getStoredApiKey_exec. }
  subst p. cbn [fst world]. now destruct (mount_effect k (boot clock)).
Qed.

Lemma open_page_storage (clock : nat -> Z) (stored : Storage) :
  localStorage (open_page clock stored) = stored.
Proof.
  unfold open_page, mount, pexec, pbind, on_world.
  destruct (getStoredApiKey _) as [k p] eqn:E.
  assert (Hp : p = {| world := boot clock; localStorage := stored;
                      console := [] |}).
  { change p with (snd (k, p)). rewrite <- E. apply getStoredApiKey_exec. }
  subst p. cbn [world]. now destruct (mount_effect k (boot clock)).
Qed.

(** X2: opening the page ends on the chat screen exactly when a credential
    that is not empty could be read from storage, and that credential is
    then the one in use; otherwise the setup screen shows and there is no
    credential. *)
Theorem open_page_screen (clock : nat -> Z) (stored : Storage) :
  let found := peval getStoredApiKey
                 {| world := boot clock; localStorage := stored;
                    console := [] |} in
  let w := world (open_page clock stored) in
  showApiKeySetup w = negb (truthy_opt found)
  /\ apiKey w = (if truthy_opt found then found else None)
  /\ messages w = [seed (clock O)]
  /\ isLoading w = false
  /\ sent w = [].
Proof.
  cbv zeta. rewrite open_page_world.
  destruct (peval getStoredApiKey _) as [[|a k]|]; repeat split.
Qed.

(** X3: after [clearStoredApiKey] nothing is read back: [getStoredApiKey]
    returns null and the page opens on the setup screen without a
    credential, whatever was stored before. *)
Theorem clearStoredApiKey_forgets (clock : nat -> Z) (p : Page) :
  peval getStoredApiKey (pexec clearStoredApiKey p) = None
  /\ showApiKeySetup
       (world (open_page clock (localStorage (pexec clearStoredApiKey p))))
     = true
  /\ apiKey
       (world (open_page clock (localStorage (pexec clearStoredApiKey p))))
     = None.
Proof.
  assert (G : forall q, localStorage q
                        = localStorage (pexec clearStoredApiKey p) ->
                        peval getStoredApiKey q = None).
  { intros q Hq. rewrite getStoredApiKey_eval, Hq.
    unfold clearStoredApiKey. run_page. now rewrite storage_get_remove. }
  split; [now apply G|].
  rewrite open_page_world, G by reflexivity. now split.
Qed.

(** *** validateAndSetApiKey *)

Lemma validate_key_sent (apiKey : jsstr) (r : FetchResult) (p : Page) :
  startsWith apiKey KEY_PREFIX = true ->
  pexec (validate_key apiKey r) p
  = pexec (validateAndSetApiKey_settled apiKey r)
      (with_world
         (with_sent (fun l => l ++ [GetModels (str "Bearer " ++ apiKey)])
            (with_isValidating true (world p))) p).
Proof.
  intros H. unfold validate_key, validateAndSetApiKey.
  rewrite (startsWith_prefix_truthy _ H), H. cbn [negb].
  destruct p as [w ls cs]. destruct w. run_page. run_handler.
  rewrite length_app. cbn [List.length].
  replace (_ <? _)%nat with true by (symmetry; apply Nat.ltb_lt; lia).
  reflexivity.
Qed.

Lemma validate_key_not_sent (apiKey : jsstr) (r : FetchResult) (p : Page) :
  startsWith apiKey KEY_PREFIX = false ->
  pexec (validate_key apiKey r) p
  = if truthy (trim apiKey)
    then with_world
           (with_notices (fun l => l ++ [Alert invalid_format]) (world p)) p
    else p.
Proof.
  intros H. unfold validate_key, validateAndSetApiKey. rewrite H.
  destruct p as [w ls cs]. destruct w.
  destruct (truthy (trim apiKey)); cbn [negb]; run_page; run_handler;
    now rewrite Nat.ltb_irrefl.
Qed.

(** X4: a key that does not start with the required prefix never reaches
    the network or the storage: a blank one changes nothing at all, any
    other one only adds the notice about the format. *)
Theorem validate_key_bad_format (key : jsstr) (r : FetchResult) (p : Page) :
  startsWith key KEY_PREFIX = false ->
  let p' := pexec (validate_key key r) p in
  localStorage p' = localStorage p
  /\ sent (world p') = sent (world p)
  /\ apiKey (world p') = apiKey (world p)
  /\ isValidating (world p') = isValidating (world p)
  /\ notices (world p')
     = notices (world p)
       ++ (if truthy (trim key) then [Alert invalid_format] else []).
Proof.
  intros H. cbv zeta. rewrite (validate_key_not_sent _ r p H).
  destruct p as [w ls cs]. destruct w.
  destruct (truthy (trim key)); cbn; rewrite ?app_nil_r; repeat split.
Qed.

Lemma validate_key_bad_format_witness :
  notices (world (pexec (validate_key (str "abc123") sample_reply)
                    (open_page slow_clock [])))
  = notices (world (open_page slow_clock [])) ++ [Alert invalid_format]
  /\ sent (world (pexec (validate_key (str "abc123") sample_reply)
                    (open_page slow_clock [])))
     = sent (world (open_page slow_clock [])).
Proof.
  destruct (@validate_key_bad_format (str "abc123") sample_reply
              (open_page slow_clock []))
    as (_ & Hs & _ & _ & Hn); [vm_compute; reflexivity|].
  split; [exact Hn|exact Hs].
Defined.

Lemma validateAndSetApiKey_settled_exec (key : jsstr) (r : FetchResult)
    (p : Page) :
  pexec (validateAndSetApiKey_settled key r) p
  = if stores key r
    then {| world := with_isValidating false
                       (with_showApiKeySetup false
                          (with_apiKey (Some key) (world p)));
            localStorage := storage_set STORAGE_KEY (Base64.encode key)
                              (localStorage p);
            console := console p |}
    else with_world
           (with_isValidating false
              (with_notices (fun l => l ++ [Alert (key_failure_text r)])
                 (world p))) p.
Proof.
  unfold validateAndSetApiKey_settled, stores, key_failure_text,
    btoa_or_throw, Base64.btoa, handleApiKeySet.
  destruct p as [w ls cs]. destruct w.
  destruct r as [e|response]; [reflexivity|].
  run_page. destruct (ok response); cbn [andb]; [|reflexivity].
  destruct (forallb (fun c => (c <=? 255)%N) key); reflexivity.
Qed.

(** X5: however its request settles, [validateAndSetApiKey] ends with
    [isValidating] false, and it leaves the conversation, the pending flag
    and the requests of the chat as they were. *)
Theorem validateAndSetApiKey_settled_cleanup (key : jsstr) (r : FetchResult)
    (p : Page) :
  let p' := pexec (validateAndSetApiKey_settled key r) p in
  isValidating (world p') = false
  /\ messages (world p') = messages (world p)
  /\ isLoading (world p') = isLoading (world p)
  /\ sent (world p') = sent (world p)
  /\ console p' = console p.
Proof.
  cbv zeta. rewrite validateAndSetApiKey_settled_exec.
  destruct p as [w ls cs]. destruct w. now destruct (stores key r).
Qed.

(** X6: a key of the required format made of code units up to 255, checked
    with a 2xx response, becomes the credential in use, closes the setup
    screen without a notice, and is read back from storage: by
    [getStoredApiKey], and by the page when it is opened again. *)
Theorem validated_key_survives_reload (key : jsstr) (response : Response)
    (clock : nat -> Z) (p : Page) :
  startsWith key KEY_PREFIX = true ->
  Base64.bytes key ->
  ok response = true ->
  let p' := pexec (validate_key key (Fulfilled response)) p in
  apiKey (world p') = Some key
  /\ showApiKeySetup (world p') = false
  /\ notices (world p') = notices (world p)
  /\ peval getStoredApiKey p' = Some key
  /\ apiKey (world (open_page clock (localStorage p'))) = Some key
  /\ showApiKeySetup (world (open_page clock (localStorage p'))) = false.
Proof.
  intros Hp Hb Hok. cbv zeta.
  rewrite (validate_key_sent _ _ _ Hp), validateAndSetApiKey_settled_exec.
  assert (Hs : stores key (Fulfilled response) = true).
  { unfold stores. rewrite Hok. cbn [andb]. apply forallb_forall.
    unfold Base64.bytes in Hb. rewrite Forall_forall in Hb.
    intros c Hc. apply N.leb_le. now apply Hb. }
  rewrite Hs.
  assert (Hk : truthy key = true).
  { destruct key; [discriminate Hp|reflexivity]. }
  assert (G : forall q,
    localStorage q
    = storage_set STORAGE_KEY (Base64.encode key) (localStorage p) ->
    peval getStoredApiKey q = Some key).
  { intros q Hq. rewrite getStoredApiKey_eval, Hq, storage_get_set.
    rewrite (Base64Facts.atob_encode Hb).
    destruct (Base64.encode key) eqn:E; [|reflexivity].
    destruct key as [|a [|b [|c t]]]; discriminate. }
  split; [now destruct p as [[] ? ?]|].
  split; [now destruct p as [[] ? ?]|].
  split; [now destruct p as [[] ? ?]|].
  split; [now apply G|].
  rewrite open_page_world, G by reflexivity.
  destruct key; [discriminate|]. now split.
Qed.

Lemma validated_key_survives_reload_witness :
  apiKey (world (open_page quick_clock
           (localStorage
              (pexec (validate_key sample_key sample_reply)
                 (open_page slow_clock [])))))
  = Some sample_key.
Proof.
  apply (@validated_key_survives_reload sample_key
           {| status := 200;
              json := JsonData (ChoiceList
                [Some {| choice_message :=
                           Some {| message_content := Some (str "hello") |} |}]) |}
           quick_clock (open_page slow_clock [])).
  - vm_compute. reflexivity.
  - unfold Base64.bytes, sample_key.
    repeat (constructor; [vm_compute; discriminate|]). constructor.
  - reflexivity.
Defined.

(** X7: when the key is not stored (the request fails, the response is not
    a 2xx one, or the key has a code unit above 255 so that [btoa] throws),
    one notice is shown and the storage, the credential in use and the
    screen stay as they were.  For a key [btoa] refuses the notice is the
    one about the connection, although the response was a 2xx one. *)
Theorem unvalidated_key_changes_nothing (key : jsstr) (r : FetchResult)
    (p : Page) :
  startsWith key KEY_PREFIX = true ->
  stores key r = false ->
  let p' := pexec (validate_key key r) p in
  localStorage p' = localStorage p
  /\ apiKey (world p') = apiKey (world p)
  /\ showApiKeySetup (world p') = showApiKeySetup (world p)
  /\ isValidating (world p') = false
  /\ notices (world p') = notices (world p) ++ [Alert (key_failure_text r)]
  /\ (forall response, r = Fulfilled response -> ok response = true ->
      key_failure_text r = validation_failed).
Proof.
  intros Hp Hs. cbv zeta.
  rewrite (validate_key_sent _ _ _ Hp), validateAndSetApiKey_settled_exec, Hs.
  destruct p as [w ls cs]. destruct w. cbn. repeat split.
  intros response -> Hok. unfold key_failure_text. now rewrite Hok.
Qed.

Lemma unvalidated_key_changes_nothing_witness :
  notices (world (pexec (validate_key (str "sk-or-v1-" ++ [960%N])
                           sample_reply)
                    (open_page slow_clock [])))
  = notices (world (open_page slow_clock []))
    ++ [Alert validation_failed].
Proof.
  apply (@unvalidated_key_changes_nothing (str "sk-or-v1-" ++ [960%N])
           sample_reply (open_page slow_clock []));
    vm_compute; reflexivity.
Defined.

(* ===================================================================== *)
(** ** What the application keeps true, whatever the events *)
(* ===================================================================== *)

(** [handleSubmit] in full: the world it leaves, case by case. *)
Lemma handleSubmit_world (w : World) :
  exec handleSubmit w
  = let text := sanitizeInput (input w) in
    if negb (truthy (trim text)) then
      with_notices (fun l => l ++ [Alert empty_error]) w
    else if (JS.length text >? MAX_MESSAGE_LENGTH)%Z then
      with_notices (fun l => l ++ [Alert too_long_error]) w
    else if (next_tick w - lastMessageTime w <? RATE_LIMIT_DELAY)%Z then
      with_notices (fun l => l ++ [Alert rate_limit_error])
        (with_reads (S (reads w)) w)
    else if isLoading w then with_reads (S (reads w)) w
    else if truthy_opt (apiKey w) then
      let userMessage :=
        {| id := toString (ticks w (S (reads w))); content := text;
           isUser := true; timestamp := ticks w (S (S (reads w))) |} in
      {| messages := messages w ++ [userMessage];
         isLoading := true;
         apiKey := apiKey w;
         showApiKeySetup := showApiKeySetup w;
         input := [];
         lastMessageTime := ticks w (S (S (S (reads w))));
         isValidating := isValidating w;
         ticks := ticks w;
         reads := S (S (S (S (reads w))));
         notices := notices w;
         sent := sent w
                 ++ [PostCompletion
                       (str "Bearer "
                        ++ match apiKey w with Some k => k | None => [] end)
                       MODEL
                       (map history_entry (messages w ++ [userMessage]))
                       7 1000];
         inflight := S (inflight w) |}
    else
      with_lastMessageTime (ticks w (S (reads w)))
        (with_reads (S (S (reads w)))
           (with_input []
              (with_notices
                 (fun l => l ++ [Toast (str "API Key Required")
                                   (str "Please set your API key to send messages.")
                                   (str "destructive")])
                 w))).
Proof.
  rewrite handleSubmit_unfold. cbv zeta.
  unfold validateInput, first_rejection, sendMessage, history_entry.
  destruct w as [ms ld key sh inp lmt iv tk rd nt st fl]. cbn [input].
  destruct (negb (truthy (trim (sanitizeInput inp)))); [reflexivity|].
  destruct (JS.length (sanitizeInput inp) >? MAX_MESSAGE_LENGTH)%Z;
    [reflexivity|].
  run_handler.
  destruct (tk rd - lmt <? RATE_LIMIT_DELAY)%Z; [reflexivity|].
  destruct ld; [reflexivity|].
  destruct (truthy_opt key); reflexivity.
Qed.

(** The pending flag is up exactly while one request is outstanding. *)
Lemma step_single_flight (w : World) (e : event) :
  isLoading w = (inflight w =? 1)%nat /\ (inflight w <= 1)%nat ->
  isLoading (step w e) = (inflight (step w e) =? 1)%nat
  /\ (inflight (step w e) <= 1)%nat.
Proof.
  intros [Hl Hi]. unfold step, render.
  destruct e as [k|value| | | |k|r]; cbn [handle].
  - unfold mount_effect. destruct k as [k|]; [destruct (truthy k)|];
      destruct w as [ms ld key [] inp lmt iv tk rd nt st fl];
      cbn in *; now split.
  - unfold handleInputChange.
    destruct (JS.length value <=? MAX_MESSAGE_LENGTH)%Z;
      destruct w as [ms ld key [] inp lmt iv tk rd nt st fl];
      cbn in *; now split.
  - rewrite handleSubmit_world. cbv zeta.
    destruct (negb _); [|destruct (_ >? _)%Z; [|destruct (_ <? _)%Z]];
      try (destruct w as [ms ld key [] inp lmt iv tk rd nt st fl];
           cbn in *; now split).
    destruct (isLoading w) eqn:L.
    + destruct w as [ms ld key [] inp lmt iv tk rd nt st fl];
        cbn in *; subst; now split.
    + assert (inflight w = 0)%nat.
      { symmetry in Hl. apply Nat.eqb_neq in Hl. lia. }
      destruct (truthy_opt (apiKey w));
        destruct w as [ms ld key [] inp lmt iv tk rd nt st fl];
        cbn in *; subst; now split.
  - destruct w as [ms ld key [] inp lmt iv tk rd nt st fl];
      cbn in *; now split.
  - destruct w; cbn in *; now split.
  - destruct w; cbn in *; now split.
  - rewrite settle_exec. destruct (inflight w) as [|n] eqn:F.
    + rewrite <- F in *.
      destruct w as [ms ld key [] inp lmt iv tk rd nt st fl];
        cbn in *; now split.
    + assert (n = 0)%nat by lia. subst n.
      destruct (sendMessage_settled_frame r (with_inflight 0 w))
        as (suffix & nt' & rd' & ->).
      destruct w as [ms ld key [] inp lmt iv tk rd nt st fl];
        cbn in *; (split; [reflexivity|lia]).
Qed.

(** X8: from the first render on, whatever the events, at most one
    completion request is outstanding, and the pending flag is up exactly
    while one is. *)
Theorem single_request_in_flight (clock : nat -> Z) (es : list event) :
  (inflight (run es (boot clock)) <= 1)%nat
  /\ isLoading (run es (boot clock))
     = (inflight (run es (boot clock)) =? 1)%nat.
Proof.
  assert (G : forall w,
    isLoading w = (inflight w =? 1)%nat /\ (inflight w <= 1)%nat ->
    isLoading (run es w) = (inflight (run es w) =? 1)%nat
    /\ (inflight (run es w) <= 1)%nat).
  { induction es as [|e es IH]; intros w H; [exact H|].
    unfold run in *. cbn [fold_left]. apply IH.
    now apply step_single_flight. }
  destruct (G (boot clock)) as [Hl Hi]; [split; [reflexivity|cbn; lia]|].
  now split.
Qed.

Lemma run_invariant (I : World -> Prop) :
  (forall w e, I w -> I (step w e)) ->
  forall es w, I w -> I (run es w).
Proof.
  intros Hstep es. induction es as [|e es IH]; intros w H; [exact H|].
  unfold run in *. cbn [fold_left]. apply IH. now apply Hstep.
Qed.

(** After its [await], [sendMessage] appends messages of the assistant
    only and shows toasts only. *)
Lemma sendMessage_settled_appends (r : FetchResult) (w : World) :
  exists suffix toasts rd,
    exec (sendMessage_settled r) w
    = with_isLoading false
        (with_messages (fun l => l ++ suffix)
           (with_notices (fun l => l ++ toasts) (with_reads rd w)))
    /\ Forall (fun m => isUser m = false) suffix
    /\ forallb is_toast toasts = true.
Proof.
  destruct w as [ms ld key sh inp lmt iv tk rd nt st fl].
  unfold sendMessage_settled. destruct r as [e|response]; run_handler.
  - exists [], [Toast (str "Error")
                  match e with ErrorObject m => m | NotAnError => send_failed end
                  (str "destructive")], rd.
    rewrite app_nil_r. repeat split. constructor.
  - destruct (ok response), (status response =? 401)%Z,
      (status response =? 429)%Z, (json response) as [e|[m|l]];
      cbn [negb];
      first [ now (eexists [], [_], _; rewrite app_nil_r; repeat split;
                   constructor)
            | now (eexists [_], [], _; rewrite app_nil_r; repeat split;
                   repeat constructor) ].
Qed.

Lemma In_snoc (A : Type) (x y : A) (l : list A) :
  In x (l ++ [y]) -> In x l \/ x = y.
Proof.
  intros H. apply in_app_or in H as [H | [H | []]]; auto.
Qed.

Lemma sanitized_within (s : jsstr) :
  (JS.length s <= MAX_MESSAGE_LENGTH)%Z ->
  (JS.length (sanitizeInput s) >? MAX_MESSAGE_LENGTH)%Z = false.
Proof.
  intros H. rewrite Z.gtb_ltb. apply Z.ltb_ge.
  pose proof (sanitizeInput_length s). unfold JS.length in *. lia.
Qed.

Lemma step_input_bounded (w : World) (e : event) :
  (JS.length (input w) <= MAX_MESSAGE_LENGTH)%Z
  /\ ~ In (Alert too_long_error) (notices w) ->
  (JS.length (input (step w e)) <= MAX_MESSAGE_LENGTH)%Z
  /\ ~ In (Alert too_long_error) (notices (step w e)).
Proof.
  intros [Hi Hn]. unfold step, render.
  destruct e as [k|value| | | |k|r]; cbn [handle].
  - unfold mount_effect. destruct k as [k|]; [destruct (truthy k)|];
      destruct w as [ms ld key [] inp lmt iv tk rd nt st fl];
      cbn in *; (split; [assumption || (vm_compute; discriminate)|assumption]).
  - unfold handleInputChange.
    destruct (JS.length value <=? MAX_MESSAGE_LENGTH)%Z eqn:E;
      [apply Z.leb_le in E|];
      destruct w as [ms ld key [] inp lmt iv tk rd nt st fl];
      cbn in *;
      (split; [assumption || (vm_compute; discriminate)|assumption]).
  - rewrite handleSubmit_world. cbv zeta. rewrite (sanitized_within _ Hi).
    destruct (negb _); [|destruct (_ <? _)%Z;
                         [|destruct (isLoading w);
                           [|destruct (truthy_opt (apiKey w))]]];
      destruct w as [ms ld key [] inp lmt iv tk rd nt st fl];
      cbn in *;
      (split; [assumption || (vm_compute; discriminate)|]);
      try assumption;
      intros H; apply In_snoc in H as [H | H]; try contradiction;
      try discriminate H;
      injection H as H; vm_compute in H; discriminate H.
  - destruct w as [ms ld key [] inp lmt iv tk rd nt st fl];
      cbn in *;
      (split; [assumption || (vm_compute; discriminate)|assumption]).
  - destruct w as [ms ld key sh inp lmt iv tk rd nt st fl];
      cbn in *; (split; [vm_compute; discriminate|assumption]).
  - destruct w as [ms ld key sh inp lmt iv tk rd nt st fl];
      cbn in *; (split; assumption).
  - rewrite settle_exec. destruct (inflight w) as [|n].
    + destruct w as [ms ld key [] inp lmt iv tk rd nt st fl];
        cbn in *;
        (split; [assumption || (vm_compute; discriminate)|assumption]).
    + destruct (sendMessage_settled_appends r (with_inflight n w))
        as (suffix & toasts & rd' & -> & _ & Ht).
      assert (Hn' : ~ In (Alert too_long_error) (notices w ++ toasts)).
      { intros H. apply in_app_or in H as [H | H]; [contradiction|].
        rewrite forallb_forall in Ht. apply Ht in H. discriminate. }
      destruct w as [ms ld key [] inp lmt iv tk rd nt st fl];
        cbn in *;
        (split; [assumption || (vm_compute; discriminate)|assumption]).
Qed.

(** X9: the input field never holds more than [MAX_MESSAGE_LENGTH] code
    units, so the check of the length in [validateInput] never fails: the
    notice that the message is too long is never shown. *)
Theorem too_long_is_never_reported (clock : nat -> Z) (es : list event) :
  (JS.length (input (run es (boot clock))) <= MAX_MESSAGE_LENGTH)%Z
  /\ ~ In (Alert too_long_error) (notices (run es (boot clock))).
Proof.
  apply (run_invariant
           (fun w => (JS.length (input w) <= MAX_MESSAGE_LENGTH)%Z
                     /\ ~ In (Alert too_long_error) (notices w))).
  - apply step_input_bounded.
  - split; [vm_compute; discriminate|intros []].
Qed.

Lemma validated_text_guarded (s : jsstr) :
  negb (truthy (trim (sanitizeInput s))) = false ->
  (JS.length (sanitizeInput s) >? MAX_MESSAGE_LENGTH)%Z = false ->
  guarded_text (sanitizeInput s).
Proof.
  intros He Hl. rewrite sanitizeInput_trimmed in He.
  unfold guarded_text. split; [|split].
  - destruct (sanitizeInput s); [discriminate|discriminate].
  - apply sanitizeInput_trimmed.
  - rewrite Z.gtb_ltb in Hl. now apply Z.ltb_ge.
Qed.

Lemma step_user_messages (w : World) (e : event) :
  Forall (fun m => isUser m = true -> guarded_text (content m)) (messages w) ->
  Forall (fun m => isUser m = true -> guarded_text (content m))
         (messages (step w e)).
Proof.
  intros H. unfold step. rewrite render_messages.
  destruct e as [k|value| | | |k|r]; cbn [handle].
  - unfold mount_effect. destruct k as [k|]; [destruct (truthy k)|];
      now destruct w.
  - unfold handleInputChange.
    destruct (JS.length value <=? MAX_MESSAGE_LENGTH)%Z; now destruct w.
  - rewrite handleSubmit_world. cbv zeta.
    destruct (negb _) eqn:He; [now destruct w|].
    destruct (_ >? _)%Z eqn:Hl; [now destruct w|].
    destruct (_ <? _)%Z; [now destruct w|].
    destruct (isLoading w); [now destruct w|].
    destruct (truthy_opt (apiKey w)); [|now destruct w].
    cbn [messages]. apply Forall_app. split; [exact H|].
    constructor; [|constructor]. intros _. cbn [content].
    now apply validated_text_guarded.
  - destruct w. cbn. constructor; [discriminate|constructor].
  - now destruct w.
  - now destruct w.
  - rewrite settle_exec. destruct (inflight w) as [|n]; [exact H|].
    destruct (sendMessage_settled_appends r (with_inflight n w))
      as (suffix & toasts & rd' & -> & Hs & _).
    replace (messages _) with (messages w ++ suffix) by now destruct w.
    apply Forall_app. split; [exact H|].
    eapply Forall_impl; [|exact Hs]. cbn. intros m -> C. discriminate C.
Qed.

(** X10: every message of the user in the conversation went through the
    input guard: its text is not empty, has no white space around it and
    is at most [MAX_MESSAGE_LENGTH] code units long. *)
Theorem user_messages_are_guarded (clock : nat -> Z) (es : list event) :
  Forall (fun m => isUser m = true -> guarded_text (content m))
         (messages (run es (boot clock))).
Proof.
  apply (run_invariant
           (fun w => Forall (fun m => isUser m = true
                                      -> guarded_text (content m))
                            (messages w))).
  - apply step_user_messages.
  - constructor; [discriminate|constructor].
Qed.

Lemma step_sent (w : World) (e : event) :
  sent (step w e) = sent w
  \/ exists r, sent (step w e) = sent w ++ [r] /\ credentialed r.
Proof.
  unfold step, render.
  destruct e as [k|value| | | |k|r]; cbn [handle].
  - left. unfold mount_effect. destruct k as [k|]; [destruct (truthy k)|];
      now destruct w as [ms ld key [] inp lmt iv tk rd nt st fl].
  - left. unfold handleInputChange.
    destruct (JS.length value <=? MAX_MESSAGE_LENGTH)%Z;
      now destruct w as [ms ld key [] inp lmt iv tk rd nt st fl].
  - rewrite handleSubmit_world. cbv zeta.
    destruct (negb _);
      [left; now destruct w as [ms ld key [] inp lmt iv tk rd nt st fl]|].
    destruct (_ >? _)%Z;
      [left; now destruct w as [ms ld key [] inp lmt iv tk rd nt st fl]|].
    destruct (_ <? _)%Z;
      [left; now destruct w as [ms ld key [] inp lmt iv tk rd nt st fl]|].
    destruct (isLoading w);
      [left; now destruct w as [ms ld key [] inp lmt iv tk rd nt st fl]|].
    destruct (truthy_opt (apiKey w)) eqn:K;
      [|left; now destruct w as [ms ld key [] inp lmt iv tk rd nt st fl]].
    right. eexists. split.
    + destruct w as [ms ld key [] inp lmt iv tk rd nt st fl]; reflexivity.
    + cbn [credentialed]. split; [|split; [reflexivity|]].
      * destruct (apiKey w) as [[|a k]|]; try discriminate.
        exists (a :: k). now split.
      * rewrite map_app. cbn [map history_entry isUser content].
        now eexists _, _.
  - left. now destruct w as [ms ld key [] inp lmt iv tk rd nt st fl].
  - left. now destruct w.
  - left. now destruct w.
  - left. rewrite settle_exec. destruct (inflight w) as [|n].
    + now destruct w as [ms ld key [] inp lmt iv tk rd nt st fl].
    + destruct (sendMessage_settled_appends r (with_inflight n w))
        as (suffix & toasts & rd' & -> & _).
      now destruct w as [ms ld key [] inp lmt iv tk rd nt st fl].
Qed.

(** X11: no completion request leaves without a credential: every request
    issued carries a bearer credential that is not empty, names the fixed
    model and has a history that ends with a message of the user. *)
Theorem requests_carry_a_credential (clock : nat -> Z) (es : list event) :
  Forall credentialed (sent (run es (boot clock))).
Proof.
  apply (run_invariant (fun w => Forall credentialed (sent w))).
  - intros w e H. destruct (step_sent w e) as [-> | (r & -> & Hr)];
      [exact H|].
    apply Forall_app. split; [exact H|]. now constructor.
  - constructor.
Qed.

Lemma step_apiKey (w : World) (e : event) :
  apiKey w <> None -> apiKey (step w e) <> None.
Proof.
  intros H. unfold step, render.
  destruct e as [k|value| | | |k|r]; cbn [handle].
  - unfold mount_effect. destruct k as [k|]; [destruct (truthy k)|];
      destruct w as [ms ld key [] inp lmt iv tk rd nt st fl];
      cbn in *; (assumption || discriminate).
  - unfold handleInputChange.
    destruct (JS.length value <=? MAX_MESSAGE_LENGTH)%Z;
      now destruct w as [ms ld key [] inp lmt iv tk rd nt st fl].
  - rewrite handleSubmit_world. cbv zeta.
    destruct (negb _); [|destruct (_ >? _)%Z;
                         [|destruct (_ <? _)%Z;
                           [|destruct (isLoading w);
                             [|destruct (truthy_opt (apiKey w))]]]];
      now destruct w as [ms ld key [] inp lmt iv tk rd nt st fl].
  - now destruct w as [ms ld key [] inp lmt iv tk rd nt st fl].
  - now destruct w.
  - now destruct w.
  - rewrite settle_exec. destruct (inflight w) as [|n].
    + now destruct w as [ms ld key [] inp lmt iv tk rd nt st fl].
    + destruct (sendMessage_settled_appends r (with_inflight n w))
        as (suffix & toasts & rd' & -> & _).
      now destruct w as [ms ld key [] inp lmt iv tk rd nt st fl].
Qed.

(** X12: the chat never unsets its credential: once there is one, there is
    one after any events, and only the mount effect and [handleApiKeySet]
    change it. *)
Theorem credential_is_never_unset (w : World) (es : list event) :
  apiKey w <> None ->
  apiKey (run es w) <> None
  /\ forall w' e,
       match e with Mount _ | ApiKeySet _ => True | _ => False end
       \/ apiKey (step w' e) = apiKey w'.
Proof.
  intros H. split.
  - revert w H. apply (run_invariant (fun w => apiKey w <> None)).
    apply step_apiKey.
  - intros w' e. unfold step, render.
    destruct e as [k|value| | | |k|r]; cbn [handle]; auto; right.
    + unfold handleInputChange.
      destruct (JS.length value <=? MAX_MESSAGE_LENGTH)%Z;
        now destruct w' as [ms ld key [] inp lmt iv tk rd nt st fl].
    + rewrite handleSubmit_world. cbv zeta.
      destruct (negb _); [|destruct (_ >? _)%Z;
                           [|destruct (_ <? _)%Z;
                             [|destruct (isLoading w');
                               [|destruct (truthy_opt (apiKey w'))]]]];
        now destruct w' as [ms ld key [] inp lmt iv tk rd nt st fl].
    + now destruct w' as [ms ld key [] inp lmt iv tk rd nt st fl].
    + rewrite settle_exec. destruct (inflight w') as [|n].
      * now destruct w' as [ms ld key [] inp lmt iv tk rd nt st fl].
      * destruct (sendMessage_settled_appends r (with_inflight n w'))
          as (suffix & toasts & rd' & -> & _).
        now destruct w' as [ms ld key [] inp lmt iv tk rd nt st fl].
Qed.

Lemma credential_is_never_unset_witness :
  apiKey (run [NewChat; Settle sample_reply; ManageApiKey] awaiting_reply)
  <> None.
Proof.
  apply (@credential_is_never_unset awaiting_reply
           [NewChat; Settle sample_reply; ManageApiKey]).
  vm_compute. discriminate.
Defined.

(* ===================================================================== *)
(** ** Submissions, one at a time *)
(* ===================================================================== *)

(** X13: a submission that passes the input guard while there is no
    credential sends nothing and adds no message, but the text is removed
    from the field and the time is recorded as for a sent message. *)
Theorem submit_without_key_discards_text (w : World) :
  accepts w = true ->
  truthy_opt (apiKey w) = false ->
  input (exec handleSubmit w) = []
  /\ lastMessageTime (exec handleSubmit w) = ticks w (S (reads w))
  /\ messages (exec handleSubmit w) = messages w
  /\ sent (exec handleSubmit w) = sent w
  /\ isLoading (exec handleSubmit w) = false
  /\ notices (exec handleSubmit w)
     = notices w ++ [Toast (str "API Key Required")
                       (str "Please set your API key to send messages.")
                       (str "destructive")].
Proof.
  unfold accepts. rewrite validateInput_eval, handleSubmit_world. cbv zeta.
  unfold first_rejection. intros A K.
  destruct (negb _); [discriminate|].
  destruct (_ >? _)%Z; [discriminate|].
  destruct (_ <? _)%Z; [discriminate|].
  destruct (isLoading w) eqn:L; [discriminate|]. rewrite K.
  destruct w. cbn in *. subst. repeat split.
Qed.

Lemma submit_without_key_discards_text_witness :
  input (exec handleSubmit
           (run [InputChange (str "hi")] (boot slow_clock))) = [].
Proof.
  apply (@submit_without_key_discards_text
           (run [InputChange (str "hi")] (boot slow_clock)));
    vm_compute; reflexivity.
Defined.

(** X14: a submission the input guard turns down shows exactly one alert and
    leaves everything else of the application as it was: the text stays in
    the field and the time of the last accepted submission is not moved. *)
Theorem rejected_submission_keeps_text (w : World) :
  isValid (eval (validateInput (sanitizeInput (input w))) w) = false ->
  exists reason,
    notices (exec handleSubmit w) = notices w ++ [Alert reason]
    /\ error (eval (validateInput (sanitizeInput (input w))) w) = Some reason
    /\ input (exec handleSubmit w) = input w
    /\ lastMessageTime (exec handleSubmit w) = lastMessageTime w
    /\ messages (exec handleSubmit w) = messages w
    /\ sent (exec handleSubmit w) = sent w
    /\ isLoading (exec handleSubmit w) = isLoading w.
Proof.
  rewrite validateInput_eval, handleSubmit_world. cbv zeta.
  unfold first_rejection. intros A.
  destruct (negb _).
  { exists empty_error. destruct w. repeat split. }
  destruct (_ >? _)%Z.
  { exists too_long_error. destruct w. repeat split. }
  destruct (_ <? _)%Z; [|discriminate].
  exists rate_limit_error. destruct w. repeat split.
Qed.

Lemma rejected_submission_keeps_text_witness :
  exists reason,
    notices (exec handleSubmit (boot slow_clock))
    = notices (boot slow_clock) ++ [Alert reason].
Proof.
  destruct (@rejected_submission_keeps_text (boot slow_clock))
    as (reason & H & _); [vm_compute; reflexivity|].
  now exists reason.
Defined.

(** X15: a submission that passes the input guard while a request is pending
    is dropped in silence: no notice, no message, no request, the text
    stays in the field; only the clock was read. *)
Theorem pending_submission_is_dropped (w : World) :
  isValid (eval (validateInput (sanitizeInput (input w))) w) = true ->
  isLoading w = true ->
  exec handleSubmit w = with_reads (S (reads w)) w.
Proof.
  rewrite validateInput_eval, handleSubmit_world. cbv zeta.
  unfold first_rejection. intros A L.
  destruct (negb _); [discriminate|].
  destruct (_ >? _)%Z; [discriminate|].
  destruct (_ <? _)%Z; [discriminate|].
  now rewrite L.
Qed.

Lemma pending_submission_is_dropped_witness :
  notices (exec handleSubmit
             (exec (handleInputChange (str "more")) awaiting_reply))
  = [].
Proof.
  rewrite (@pending_submission_is_dropped
             (exec (handleInputChange (str "more")) awaiting_reply));
    vm_compute; reflexivity.
Defined.

(** X16: the request of [sendMessage] carries the conversation as it stands
    once the new message is appended, in order and from the greeting on,
    each message under the role of its author, with the credential as
    bearer. *)
Theorem request_carries_the_conversation (text k : jsstr) (w : World) :
  apiKey w = Some k ->
  truthy k = true ->
  sent (exec (sendMessage text) w)
  = sent w
    ++ [PostCompletion (str "Bearer " ++ k) MODEL
          (map history_entry (messages (exec (sendMessage text) w)))
          7 1000]
  /\ (forall m, role (history_entry m)
                = if isUser m then str "user" else str "assistant")
  /\ List.length (messages (exec (sendMessage text) w))
     = S (List.length (messages w)).
Proof.
  intros K T. unfold sendMessage.
  destruct w as [ms ld key sh inp lmt iv tk rd nt st fl].
  cbn [apiKey] in K. subst key. run_handler. cbn [truthy_opt]. rewrite T.
  cbn [negb sent messages]. repeat split.
  rewrite length_app. cbn. lia.
Qed.

Lemma request_carries_the_conversation_witness :
  List.length
    (messages (exec (sendMessage (str "hi"))
                 (run [Mount (Some sample_key)] (boot slow_clock))))
  = 2%nat.
Proof.
  apply (@request_carries_the_conversation (str "hi") sample_key
           (run [Mount (Some sample_key)] (boot slow_clock)));
    vm_compute; reflexivity.
Defined.

Lemma render_isLoading (w : World) : isLoading (render w) = isLoading w.
Proof. unfold render. now destruct w as [ms ld key []]. Qed.

(** X17: a reply that arrives after the conversation was reset is appended
    to the new conversation: the greeting is followed by the answer to a
    message that is no longer there. *)
Theorem reply_after_reset_lands_in_new_chat (c : jsstr) (w : World) :
  inflight w <> O ->
  messages (run [NewChat; Settle (reply_with c)] w)
  = [seed (next_tick w);
     {| id := toString (ticks w (S (reads w)) + 1);
        content := or_else (Some c) placeholder;
        isUser := false;
        timestamp := ticks w (S (S (reads w))) |}]
  /\ isLoading (run [NewChat; Settle (reply_with c)] w) = false.
Proof.
  intros H. unfold run. cbn [fold_left].
  assert (F : inflight (step w NewChat) = inflight w
              /\ messages (step w NewChat) = [seed (next_tick w)]
              /\ ticks (step w NewChat) = ticks w
              /\ reads (step w NewChat) = S (reads w)).
  { unfold step, render.
    now destruct w as [ms ld key [] inp lmt iv tk rd nt st fl]. }
  destruct F as (Fi & Fm & Ft & Fr).
  set (w1 := step w NewChat) in *. unfold step.
  rewrite render_messages, render_isLoading. cbn [handle].
  rewrite settle_exec, Fi. destruct (inflight w) as [|n]; [contradiction|].
  split; [|apply sendMessage_settled_isLoading].
  unfold reply_with. erewrite sendMessage_settled_success; try reflexivity.
  unfold next_tick. destruct w1. cbn in *. now subst.
Qed.

Lemma reply_after_reset_lands_in_new_chat_witness :
  isLoading (run [NewChat; Settle (reply_with (str "hello"))] awaiting_reply)
  = false.
Proof.
  apply (@reply_after_reset_lands_in_new_chat (str "hello") awaiting_reply).
  vm_compute. discriminate.
Defined.

(* ===================================================================== *)
(** ** More on sanitizeInput *)
(* ===================================================================== *)

Lemma subseq_refl (A : Type) (l : list A) : subseq l l.
Proof. induction l; constructor; assumption. Qed.

Lemma subseq_trans (A : Type) (a b c : list A) :
  subseq a b -> subseq b c -> subseq a c.
Proof.
  intros Hab Hbc. revert a Hab.
  induction Hbc as [|x s t _ IH|x s t _ IH]; intros a Hab.
  - exact Hab.
  - inversion Hab; subst.
    + constructor. now apply IH.
    + apply subseq_drop. now apply IH.
  - apply subseq_drop. now apply IH.
Qed.

Lemma subseq_suffix (A : Type) (p t : list A) : subseq t (p ++ t).
Proof.
  induction p as [|x p IH]; [apply subseq_refl|].
  apply subseq_drop. exact IH.
Qed.

Lemma subseq_nil_l (A : Type) (l : list A) : subseq [] l.
Proof. induction l; constructor; assumption. Qed.

Lemma subseq_prefix (A : Type) (t q : list A) : subseq t (t ++ q).
Proof.
  induction t as [|x t IH]; [apply subseq_nil_l|].
  cbn. now constructor.
Qed.

Lemma subseq_Forall (A : Type) (P : A -> Prop) (s t : list A) :
  subseq s t -> Forall P t -> Forall P s.
Proof.
  induction 1 as [|x s t _ IH|x s t _ IH]; intros H.
  - constructor.
  - inversion_clear H. constructor; auto.
  - inversion_clear H. auto.
Qed.

Lemma replace_from_subseq (r : regex) (s : jsstr) :
  forall k prev, subseq (replace_from r k prev s) s.
Proof.
  induction s as [|a t IH]; intros k prev; cbn [replace_from].
  - constructor.
  - destruct k as [|k]; [|apply subseq_drop, IH].
    destruct (match_at r _) as [[|j]|].
    + constructor. apply IH.
    + apply subseq_drop, IH.
    + constructor. apply IH.
Qed.

Lemma trim_subseq (s : jsstr) : subseq (trim s) s.
Proof.
  unfold trim. destruct (trimStart_suffix s) as [p Hp].
  destruct (trimEnd_prefix (trimStart s)) as [q Hq].
  apply subseq_trans with (b := trimStart s).
  - rewrite Hq at 2. apply subseq_prefix.
  - rewrite Hp at 2. apply subseq_suffix.
Qed.

(** X18: [sanitizeInput] only removes: its result is the input with some
    code units left out, in the same order; so it is never longer than the
    input and holds no code unit the input does not hold. *)
Theorem sanitizeInput_only_removes (s : jsstr) :
  subseq (sanitizeInput s) s
  /\ (List.length (sanitizeInput s) <= List.length s)%nat
  /\ forall c, In c (sanitizeInput s) -> In c s.
Proof.
  assert (H : subseq (sanitizeInput s) s).
  { unfold sanitizeInput.
    eapply subseq_trans; [apply trim_subseq|].
    eapply subseq_trans; [apply replace_from_subseq|].
    eapply subseq_trans; [apply replace_from_subseq|].
    apply replace_from_subseq. }
  split; [exact H|]. split; [apply sanitizeInput_length|].
  intros c Hc.
  assert (F : Forall (fun x => In x s) (sanitizeInput s)).
  { apply (subseq_Forall H). apply Forall_forall. auto. }
  rewrite Forall_forall in F. now apply F.
Qed.

(** X19: the texts [sanitizeInput] leaves unchanged are exactly those
    without white space around them that hold no script block, no
    [javascript:] scheme and no event-handler attribute. *)
Theorem sanitizeInput_fixed_points (t : jsstr) :
  sanitizeInput t = t <-> trim t = t /\ clean t = true.
Proof.
  split.
  - intros H. split.
    + rewrite <- H at 2. rewrite <- H at 1. apply sanitizeInput_trimmed.
    + destruct (clean t) eqn:E; [reflexivity|].
      apply sanitizeInput_not_clean_shrinks in E. rewrite H in E. lia.
  - intros [Ht Hc]. now apply sanitizeInput_clean_fixed.
Qed.

Lemma trimStart_nil (s : jsstr) :
  trimStart s = [] -> Forall (fun c => is_space c = true) s.
Proof.
  induction s as [|a t IH]; cbn [trimStart]; [constructor|].
  destruct (is_space a) eqn:E; [|discriminate].
  intros H. constructor; auto.
Qed.

Lemma trim_nil (s : jsstr) :
  trim s = [] -> Forall (fun c => is_space c = true) s.
Proof.
  unfold trim, trimEnd. intros H.
  apply (f_equal (@rev code)) in H. rewrite rev_involutive in H.
  cbn [rev] in H. apply trimStart_nil in H.
  assert (E : trimStart s = []).
  { pose proof (trimStart_starts_clean s) as C.
    destruct (trimStart s) as [|a u]; [reflexivity|].
    cbn [starts_clean] in C. rewrite Forall_forall in H.
    rewrite (H a) in C; [discriminate|].
    apply in_rev. rewrite rev_involutive. now left. }
  now apply trimStart_nil.
Qed.

Lemma blank_sanitizes_to_nothing (s : jsstr) :
  trim s = [] -> sanitizeInput s = [].
Proof.
  intros H. apply trim_nil in H.
  assert (S : subseq (sanitizeInput s) s).
  { unfold sanitizeInput.
    eapply subseq_trans; [apply trim_subseq|].
    eapply subseq_trans; [apply replace_from_subseq|].
    eapply subseq_trans; [apply replace_from_subseq|].
    apply replace_from_subseq. }
  pose proof (subseq_Forall S H) as F.
  pose proof (trim_starts_clean
    (replace event_handler (replace javascript_scheme (replace script_block s))))
    as C.
  fold (sanitizeInput s) in C.
  destruct (sanitizeInput s) as [|a t]; [reflexivity|].
  inversion_clear F as [|? ? Ha _]. cbn [starts_clean] in C.
  rewrite Ha in C. discriminate.
Qed.

(** X20: when the submit button is disabled (blank text or a request
    pending; the field never holds too long a text), the keyboard cannot
    send either: whatever key is pressed, no message is added and no
    request goes out. *)
Theorem keyboard_respects_the_button (key : jsstr) (shiftKey : bool)
    (w : World) :
  (JS.length (input w) <= MAX_MESSAGE_LENGTH)%Z ->
  submit_disabled w = true ->
  messages (exec (handleKeyDown key shiftKey) w) = messages w
  /\ sent (exec (handleKeyDown key shiftKey) w) = sent w
  /\ isLoading (exec (handleKeyDown key shiftKey) w) = isLoading w.
Proof.
  intros B D. unfold handleKeyDown.
  destruct (jsstr_eqb key (str "Enter") && negb shiftKey);
    [|now destruct w].
  rewrite handleSubmit_world. cbv zeta.
  destruct (negb (truthy (trim (sanitizeInput (input w))))) eqn:E;
    [now destruct w|].
  destruct (_ >? _)%Z eqn:L; [now destruct w|].
  destruct (_ <? _)%Z; [now destruct w|].
  destruct (isLoading w) eqn:P; [now destruct w|].
  exfalso. unfold submit_disabled in D. rewrite P, orb_false_r in D.
  apply orb_prop in D as [D | D].
  - apply negb_true_iff in D.
    assert (N : trim (input w) = []) by now destruct (trim (input w)).
    apply blank_sanitizes_to_nothing in N. rewrite N in E. discriminate.
  - rewrite Z.gtb_ltb in D. apply Z.ltb_lt in D. lia.
Qed.

Lemma keyboard_respects_the_button_witness :
  messages (exec (handleKeyDown (str "Enter") false) awaiting_reply)
  = messages awaiting_reply.
Proof.
  apply (@keyboard_respects_the_button (str "Enter") false awaiting_reply);
    vm_compute; (reflexivity || discriminate).
Defined.

(** X21: a text made of white space only is always turned down as empty,
    whatever else holds, and nothing but that alert happens. *)
Theorem blank_text_is_rejected (w : World) :
  trim (input w) = [] ->
  exec handleSubmit w
  = with_notices (fun l => l ++ [Alert empty_error]) w.
Proof.
  intros H. rewrite handleSubmit_world. cbv zeta.
  now rewrite (blank_sanitizes_to_nothing _ H).
Qed.

Lemma blank_text_is_rejected_witness :
  notices (exec handleSubmit
             (exec (handleInputChange (str "   ")) (boot slow_clock)))
  = [Alert empty_error].
Proof.
  rewrite (@blank_text_is_rejected
             (exec (handleInputChange (str "   ")) (boot slow_clock)));
    vm_compute; reflexivity.
Defined.

(* ===================================================================== *)
(** ** The earlier ChatInterface against the current one *)
(* ===================================================================== *)

(** X22: the earlier [sendMessage] makes no credential check: it does what
    the current one does when the built-in key is the credential in use,
    and it does the same when no credential is set at all. *)
Theorem legacy_sendMessage_uses_built_in_key (key text : jsstr) (w : World) :
  truthy key = true ->
  exec (Legacy.sendMessage key text) w
  = with_apiKey (apiKey w)
      (exec (sendMessage text) (with_apiKey (Some key) w)).
Proof.
  intros T. unfold Legacy.sendMessage, sendMessage.
  destruct w as [ms ld k sh inp lmt iv tk rd nt st fl].
  run_handler. cbn [truthy_opt]. now rewrite T.
Qed.

Lemma legacy_sendMessage_uses_built_in_key_witness :
  exec (Legacy.sendMessage sample_key (str "hi")) (boot slow_clock)
  = with_apiKey None
      (exec (sendMessage (str "hi"))
            (with_apiKey (Some sample_key) (boot slow_clock))).
Proof.
  apply (@legacy_sendMessage_uses_built_in_key sample_key (str "hi")
           (boot slow_clock)).
  reflexivity.
Defined.

Lemma legacy_settled_answers (r : FetchResult) (p : Page) :
  answers r = true ->
  pexec (Legacy.sendMessage_settled r) p
  = with_world (exec (sendMessage_settled r) (world p)) p.
Proof.
  unfold answers. destruct r as [e|response]; [discriminate|].
  destruct (ok response) eqn:Hok; [|discriminate].
  destruct (json response) as [e|[m|l]] eqn:Hj; try discriminate.
  intros _. unfold Legacy.sendMessage_settled, Legacy.settled_body,
    sendMessage_settled.
  destruct p as [w ls cs]. destruct w. run_page. run_handler.
  rewrite Hok, Hj. reflexivity.
Qed.

Lemma legacy_settled_fails (r : FetchResult) (p : Page) :
  answers r = false ->
  exists error,
    pexec (Legacy.sendMessage_settled r) p
    = {| world := with_isLoading false
                    (with_notices
                       (fun l => l ++ [Toast (str "Error") send_failed
                                         (str "destructive")])
                       (world p));
         localStorage := localStorage p;
         console := console p
                    ++ [ConsoleError (str "Error sending message:") error] |}.
Proof.
  unfold answers, Legacy.sendMessage_settled, Legacy.settled_body.
  destruct p as [w ls cs]. destruct w.
  destruct r as [e|response]; [intros _; now exists e|].
  run_page. run_handler.
  destruct (ok response); cbn [andb negb]; [|intros _; now eexists].
  destruct (json response) as [e|[m|l]]; try discriminate;
    intros _; now eexists.
Qed.

(** X23: the earlier controller handles a settled request as the current one
    does, except for what is shown on a failure: whatever went wrong
    (network, status, unreadable body, no choices), it shows the one fixed
    text and puts the error on the console, where the current one shows a
    text that depends on the error. *)
Theorem legacy_settled_against_current (r : FetchResult) (p : Page) :
  let old := pexec (Legacy.sendMessage_settled r) p in
  let new := exec (sendMessage_settled r) (world p) in
  messages (world old) = messages new
  /\ isLoading (world old) = false
  /\ isLoading new = false
  /\ localStorage old = localStorage p
  /\ (if answers r
      then world old = new /\ console old = console p
      else notices (world old)
           = notices (world p)
             ++ [Toast (str "Error") send_failed (str "destructive")]
           /\ messages new = messages (world p)
           /\ exists error,
                console old
                = console p
                  ++ [ConsoleError (str "Error sending message:") error]).
Proof.
  cbv zeta. destruct (answers r) eqn:A.
  - rewrite (@legacy_settled_answers r p A). destruct p as [w ls cs].
    cbn [world with_world localStorage console].
    rewrite sendMessage_settled_isLoading. repeat split.
  - destruct (@legacy_settled_fails r p A) as [error ->].
    cbn [world localStorage console].
    assert (M : messages (exec (sendMessage_settled r) (world p))
                = messages (world p)).
    { unfold answers in A. unfold sendMessage_settled.
      destruct (world p). destruct r as [e|response]; [reflexivity|].
      run_handler.
      destruct (ok response), (status response =? 401)%Z,
        (status response =? 429)%Z, (json response) as [e|[m|l]];
        try discriminate; reflexivity. }
    rewrite M, sendMessage_settled_isLoading.
    destruct p as [w ls cs]. destruct w. cbn. repeat split. now exists error.
Qed.

(* ===================================================================== *)
(** ** Accepted submissions, and the setup screen in between *)
(* ===================================================================== *)

(** X24: a text that is not empty once sanitized, submitted with a
    credential while nothing is pending and at least [RATE_LIMIT_DELAY]
    milliseconds after the last accepted submission, is sent: the
    sanitized text, not the raw one, is appended as a message of the user,
    one request goes out, the field is emptied and the time recorded. *)
Theorem submission_after_interval_is_sent (k : jsstr) (w : World) :
  sanitizeInput (input w) <> [] ->
  (JS.length (input w) <= MAX_MESSAGE_LENGTH)%Z ->
  (RATE_LIMIT_DELAY <= next_tick w - lastMessageTime w)%Z ->
  isLoading w = false ->
  apiKey w = Some k ->
  truthy k = true ->
  messages (exec handleSubmit w)
  = messages w ++ [{| id := toString (ticks w (S (reads w)));
                      content := sanitizeInput (input w);
                      isUser := true;
                      timestamp := ticks w (S (S (reads w))) |}]
  /\ List.length (sent (exec handleSubmit w)) = S (List.length (sent w))
  /\ input (exec handleSubmit w) = []
  /\ lastMessageTime (exec handleSubmit w) = ticks w (S (S (S (reads w))))
  /\ isLoading (exec handleSubmit w) = true
  /\ notices (exec handleSubmit w) = notices w.
Proof.
  intros Hne Hlen Hrate L K T. rewrite handleSubmit_world. cbv zeta.
  rewrite sanitizeInput_trimmed, (sanitized_within _ Hlen), L, K.
  replace (truthy (sanitizeInput (input w))) with true
    by (destruct (sanitizeInput (input w)); [contradiction|reflexivity]).
  replace (next_tick w - lastMessageTime w <? RATE_LIMIT_DELAY)%Z
    with false by (symmetry; apply Z.ltb_ge; exact Hrate).
  cbn [negb truthy_opt]. rewrite T.
  cbn [messages sent input lastMessageTime isLoading notices].
  repeat split. rewrite length_app. cbn. lia.
Qed.

Lemma submission_after_interval_is_sent_witness :
  input (exec handleSubmit
           (run [Mount (Some sample_key);
                 InputChange (str " <script>x</script>hi ")]
                (boot slow_clock))) = []
  /\ List.length
       (messages (exec handleSubmit
          (run [Mount (Some sample_key);
                InputChange (str " <script>x</script>hi ")]
               (boot slow_clock)))) = 2%nat.
Proof.
  destruct (@submission_after_interval_is_sent sample_key
              (run [Mount (Some sample_key);
                    InputChange (str " <script>x</script>hi ")]
                   (boot slow_clock)))
    as (Hm & _ & Hi & _);
    try (vm_compute; (reflexivity || discriminate)).
  split; [exact Hi|]. rewrite Hm, length_app. reflexivity.
Defined.

(** X25: going to the setup screen and coming back with a key keeps the
    conversation, the pending flag and the requests, but SecureChatInput
    starts afresh: the text typed so far is lost and so is the time of the
    last accepted submission, which is back at its initial value. *)
Theorem setup_round_trip_resets_the_input (k : jsstr) (w : World) :
  let w' := run [ManageApiKey; ApiKeySet k] w in
  messages w' = messages w
  /\ isLoading w' = isLoading w
  /\ inflight w' = inflight w
  /\ sent w' = sent w
  /\ apiKey w' = Some k
  /\ showApiKeySetup w' = false
  /\ input w' = []
  /\ lastMessageTime w' = 0%Z.
Proof.
  cbv zeta. destruct w as [ms ld key sh inp lmt iv tk rd nt st fl].
  repeat split.
Qed.

(* ===================================================================== *)
(** ** Two submissions, and a failure, with other events in between *)
(* ===================================================================== *)


Lemma render_inflight (w : World) : inflight (render w) = inflight w.
Proof. unfold render. now destruct w as [ms ld key []]. Qed.

(** While a request is pending, nothing but a reset or the settling of a
    request touches the conversation, the flag or the outstanding
    requests. *)
Lemma step_while_outstanding (w : World) (e : event) :
  while_outstanding e = true ->
  isLoading w = true ->
  messages (step w e) = messages w
  /\ isLoading (step w e) = true
  /\ inflight (step w e) = inflight w.
Proof.
  intros O L. unfold step.
  rewrite render_messages, render_isLoading, render_inflight.
  destruct e as [k|value| | | |k|r]; try discriminate; cbn [handle].
  - unfold mount_effect. destruct k as [k|]; [destruct (truthy k)|];
      destruct w; cbn in *; now repeat split.
  - unfold handleInputChange.
    destruct (JS.length value <=? MAX_MESSAGE_LENGTH)%Z;
      destruct w; cbn in *; now repeat split.
  - destruct (handleSubmit_controller w) as [(Hm & Hl & Hi) | (A & _)].
    + rewrite Hm, Hl, Hi. now repeat split.
    + unfold accepts in A. rewrite L in A. cbn [negb] in A.
      rewrite andb_false_r in A. discriminate.
  - destruct w; cbn in *; now repeat split.
  - destruct w; cbn in *; now repeat split.
Qed.

Lemma run_while_outstanding (es : list event) :
  forall w,
    forallb while_outstanding es = true ->
    isLoading w = true ->
    messages (run es w) = messages w
    /\ isLoading (run es w) = true
    /\ inflight (run es w) = inflight w.
Proof.
  induction es as [|e es IH]; intros w O L; [now repeat split|].
  cbn [forallb] in O. apply andb_prop in O as [Oe Oes].
  destruct (step_while_outstanding w e Oe L) as (Hm & Hl & Hi).
  destruct (IH (step w e) Oes Hl) as (Hm' & Hl' & Hi').
  unfold run in *. cbn [fold_left]. rewrite Hm', Hl', Hi', Hm, Hi.
  now repeat split.
Qed.

(** C10, as the code has it: when [sendMessage] has a credential, the
    user's message is appended and the request goes out before anything is
    awaited; when that request then fails, and the conversation was not
    reset while it was outstanding (anything else may have happened:
    typing, further submissions, screen changes), the conversation is the
    one before followed by that one message of the user. *)
Theorem failed_submit_keeps_user_message (text : jsstr) (r : FetchResult)
    (es : list event) (w : World) :
  truthy_opt (apiKey w) = true ->
  failed r = true ->
  forallb while_outstanding es = true ->
  messages (exec (sendMessage text) w)
  = messages w ++ [{| id := toString (next_tick w); content := text;
                      isUser := true; timestamp := ticks w (S (reads w)) |}]
  /\ sent (exec (sendMessage text) w) <> sent w
  /\ messages (run (es ++ [Settle r]) (exec (sendMessage text) w))
     = messages w ++ [{| id := toString (next_tick w); content := text;
                         isUser := true; timestamp := ticks w (S (reads w)) |}].
Proof.
  intros K F O.
  destruct (@sendMessage_then_failure text r w K F) as (Hm & Hs & _).
  split; [exact Hm|]. split; [exact Hs|].
  destruct (sendMessage_with_key text w K) as (_ & Hl & Hi & _).
  destruct (run_while_outstanding es (exec (sendMessage text) w) O Hl)
    as (Rm & _ & Ri).
  unfold run in *. rewrite fold_left_app. cbn [fold_left].
  unfold step at 1. rewrite render_messages. cbn [handle].
  rewrite settle_exec, Ri, Hi.
  rewrite (sendMessage_settled_failed_messages _ _ F).
  rewrite <- Hm, <- Rm.
  now destruct (fold_left step es (exec (sendMessage text) w)).
Qed.

Lemma failed_submit_keeps_user_message_witness :
  messages (run ([InputChange (str "more"); Submit; ManageApiKey]
                 ++ [Settle (Rejected NotAnError)])
              (exec (sendMessage (str "hi"))
                 (run [Mount (Some sample_key)] (boot slow_clock))))
  = messages (run [Mount (Some sample_key)] (boot slow_clock))
    ++ [{| id := toString (next_tick (run [Mount (Some sample_key)]
                                          (boot slow_clock)));
           content := str "hi"; isUser := true;
           timestamp := slow_clock 2 |}].
Proof.
  apply (@failed_submit_keeps_user_message (str "hi") (Rejected NotAnError)
           [InputChange (str "more"); Submit; ManageApiKey]
           (run [Mount (Some sample_key)] (boot slow_clock)));
    vm_compute; reflexivity.
Defined.

(** The same from [handleSubmit] on, as a run of events: an accepted
    submission, then anything but a reset, then the failure. *)
Lemma failed_submission_as_events (r : FetchResult) (es : list event)
    (w : World) :
  accepts w = true ->
  truthy_opt (apiKey w) = true ->
  failed r = true ->
  forallb while_outstanding es = true ->
  messages (run (Submit :: es ++ [Settle r]) w)
  = messages w ++ [{| id := toString (ticks w (S (reads w)));
                      content := sanitizeInput (input w);
                      isUser := true;
                      timestamp := ticks w (S (S (reads w))) |}].
Proof.
  intros A K F O.
  assert (H : messages (step w Submit)
              = messages w ++ [{| id := toString (ticks w (S (reads w)));
                                  content := sanitizeInput (input w);
                                  isUser := true;
                                  timestamp := ticks w (S (S (reads w))) |}]
              /\ isLoading (step w Submit) = true
              /\ inflight (step w Submit) = S (inflight w)).
  { unfold step. rewrite render_messages, render_isLoading, render_inflight.
    cbn [handle]. rewrite handleSubmit_world. cbv zeta.
    unfold accepts in A. rewrite validateInput_eval in A.
    unfold first_rejection in A.
    destruct (negb _); [discriminate|].
    destruct (_ >? _)%Z; [discriminate|].
    destruct (_ <? _)%Z; [discriminate|].
    destruct (isLoading w); [discriminate|]. rewrite K. now repeat split. }
  destruct H as (Hm & Hl & Hi).
  destruct (run_while_outstanding es (step w Submit) O Hl) as (Rm & _ & Ri).
  unfold run in *. cbn [fold_left]. rewrite fold_left_app. cbn [fold_left].
  unfold step at 1. rewrite render_messages. cbn [handle].
  rewrite settle_exec, Ri, Hi.
  rewrite (sendMessage_settled_failed_messages _ _ F).
  rewrite <- Hm, <- Rm.
  now destruct (fold_left step es (step w Submit)).
Qed.

(** C10 fails as stated: New Chat is not disabled while a request is
    pending.  When the conversation is reset between the submission and
    the failure of its request, the user's message is gone: the
    conversation after the failed submission is the greeting alone, no
    longer than before and without a message of the user. *)
Lemma reset_while_pending_loses_user_message :
  accepts typed_hi = true
  /\ failed (Rejected NotAnError) = true
  /\ List.length (messages typed_hi) = 1%nat
  /\ List.length
       (messages (run [Submit; NewChat; Settle (Rejected NotAnError)]
                      typed_hi)) = 1%nat
  /\ forallb (fun m => negb (isUser m))
       (messages (run [Submit; NewChat; Settle (Rejected NotAnError)]
                      typed_hi)) = true.
Proof. vm_compute. repeat split; reflexivity. Qed.
